(** * The generational collective communicator of HPX

    A shallow embedding of [hpx::collectives::detail::communicator_server]
    (libs/full/collectives/include/hpx/collectives/detail/communicator.hpp)
    and of the properties its design document states about it.

    Conventions of the embedding.
    - [std::size_t] is [Z] restricted to [0 .. 2^64 - 1]; [++] wraps.
    - [operation_id_type] ([void const*]) is an address, [nullptr] is [0].
    - The member functions run in a monad that threads the data members,
      carries C++ exceptions, and records the calls made to collaborators
      (the user's [step] and [finalizer], the gate's [next_generation]).
    - Of [mtx_] the model keeps what the code can observe: whether a
      [unique_lock] owns it.  [handle_data] and the gate's callback own
      their lock; [on_ready] takes it with [try_to_lock] and is told the
      outcome.  [unlock] on a lock that does not own the mutex throws.
    - Constructing [std::vector<T>(n)] may fail; whether it does is the
      environment's answer, a parameter.
    - [hpx::lcos::local::and_gate] is a collaborator whose code is elsewhere;
      its state is an abstract type and [next_generation] a parameter.  The
      gate decides when continuations and the completion callback run, so
      these are transitions of their own. *)

From Stdlib Require Import ZArith List Bool Lia String Eqdep_dec.
Import ListNotations.
Open Scope Z_scope.

(* ================================================================= *)
(** ** Machine integers and pointers *)

Definition size_t : Type := Z.

Definition size_t_modulus : Z := 2 ^ 64.

Definition is_size_t (z : Z) : Prop := 0 <= z < size_t_modulus.

(** [static_cast<std::size_t>(-1)] *)
Definition size_t_minus_one : size_t := size_t_modulus - 1.

(** [++x] on a [std::size_t] *)
Definition size_t_incr (x : size_t) : size_t := (x + 1) mod size_t_modulus.

(* ================================================================= *)
(** ** namespace hpx::traits::communication *)

Module communication.

Definition operation_id_type : Type := N.

Definition nullptr : operation_id_type := 0%N.

(** The traits class a collective specialises to publish its name and its
    identity token. *)
Class communicator_data (Operation : Type) : Type := {
  name : string;
  id : operation_id_type
}.

(** The primary (unspecialised) template. *)
Definition communicator_data_primary (Operation : Type)
  : communicator_data Operation :=
  {| name := "<unknown>"; id := nullptr |}.

End communication.

Import communication.

(* ================================================================= *)
(** ** Element types and type-erased storage *)

(** Codes for the element types [T] a collective is instantiated with. *)
Inductive cpp_type : Type :=
| ty_bool
| ty_int
| ty_size_t
| ty_string
| ty_vector (T : cpp_type).

Fixpoint denote (T : cpp_type) : Type :=
  match T with
  | ty_bool => bool
  | ty_int => Z
  | ty_size_t => Z
  | ty_string => string
  | ty_vector U => list (denote U)
  end.

(** [T()] : value initialisation. *)
Definition value_init (T : cpp_type) : denote T :=
  match T with
  | ty_bool => false
  | ty_int => 0
  | ty_size_t => 0
  | ty_string => EmptyString
  | ty_vector _ => []
  end.

Definition cpp_type_eq_dec (A B : cpp_type) : {A = B} + {A <> B}.
Proof. decide equality. Defined.

(** [std::is_same_v<A, B>] *)
Definition is_same_v (A B : cpp_type) : bool :=
  if cpp_type_eq_dec A B then true else false.

(** [std::vector<T>] *)
Definition vector (T : cpp_type) : Type := list (denote T).

(** [std::vector<T>(n)] : [n] value-initialised elements. *)
Definition vector_of_size (T : cpp_type) (n : size_t) : vector T :=
  repeat (value_init T) (Z.to_nat n).

(** [v.size()] *)
Definition vector_size {T : cpp_type} (v : vector T) : size_t :=
  Z.of_nat (List.length v).

(** [hpx::unique_any_nonser] as this class uses it: empty, or holding a
    [std::vector<T>] for one element type [T]. *)
Definition unique_any_nonser : Type := option { T : cpp_type & vector T }.

Definition make_any (T : cpp_type) (v : vector T) : unique_any_nonser :=
  Some (existT vector T v).

(** [hpx::any_cast<std::vector<T>>(&a)] : the pointer form, null (here
    [None]) when the held type is not [std::vector<T>]. *)
Definition any_cast (T : cpp_type) (a : unique_any_nonser)
  : option (vector T) :=
  match a with
  | None => None
  | Some (existT _ U v) =>
      match cpp_type_eq_dec U T with
      | left e => Some (eq_rect U vector v T e)
      | right _ => None
      end
  end.

(* ================================================================= *)
(** ** Errors and exceptions *)

(** The members of [hpx::error] that occur here. *)
Inductive error : Type :=
| success
| invalid_status.

(** [hpx::error_code], the out-parameter of the gate's callbacks. *)
Definition error_code : Type := error.

Inductive exception : Type :=
| hpx_exception (e : error) (func : string)   (* HPX_THROW_EXCEPTION *)
| bad_any_cast                                 (* reference form of any_cast *)
| length_error                                 (* std::vector<T>(n), n too big *)
| bad_alloc                                    (* std::vector<T>(n), no memory *)
| system_error                                 (* unlock of a lock not owned *)
| foreign_exception (what : N).                (* anything user code throws *)

(** How constructing a [std::vector<T>(n)] can fail. *)
Inductive allocation_failure : Type :=
| exceeds_max_size
| out_of_memory.

Definition allocation_exception (a : allocation_failure) : exception :=
  match a with
  | exceeds_max_size => length_error
  | out_of_memory => bad_alloc
  end.

Definition is_invalid_status (x : exception) : bool :=
  match x with
  | hpx_exception invalid_status _ => true
  | _ => false
  end.

Inductive outcome (A : Type) : Type :=
| Returned (a : A)
| Thrown (e : exception).

Arguments Returned {A} a.
Arguments Thrown {A} e.

(** A ready [shared_future<void>]: it holds either a value or an exception. *)
Inductive shared_future_void : Type :=
| ready_value
| ready_exception (e : exception).

(* ================================================================= *)
(** ** User callbacks and the record of calls *)

(** [step(std::vector<T>&, which)]: may update the vector in place, its
    return value is discarded. *)
Definition Step (T : cpp_type) : Type :=
  vector T -> size_t -> vector T * outcome unit.

(** [finalizer(std::vector<T>&, bool& data_available, which) -> R] *)
Definition Finalizer (T : cpp_type) (R : Type) : Type :=
  vector T -> bool -> size_t -> vector T * bool * outcome R.

Inductive call : Type :=
| call_step (T : cpp_type) (data : vector T) (which : size_t)
| call_finalizer (T : cpp_type) (data : vector T) (data_available : bool)
    (which : size_t)
| call_next_generation (generation : size_t).

Definition is_call_finalizer (c : call) : bool :=
  match c with call_finalizer _ _ _ _ => true | _ => false end.

Definition is_call_next_generation (c : call) : bool :=
  match c with call_next_generation _ => true | _ => false end.

(** A gate used to run the definitions on concrete inputs: it only counts
    generations. *)
Definition counting_gate : Type := Z.

Definition counting_next_generation (g : counting_gate) (generation : size_t)
  (ec : error_code) : counting_gate * error_code :=
  (size_t_incr generation, ec).

(* ================================================================= *)
(** ** Conversion to bool and the packed [std::vector<bool>] *)

(** The types [Data] for which [static_cast<bool>(data)] is well-formed. *)
Class ExplicitBool (Data : Type) : Type :=
  static_cast_bool : Data -> bool.

#[export] Instance explicit_bool_bool : ExplicitBool bool :=
  fun b => b.

#[export] Instance explicit_bool_Z : ExplicitBool Z :=
  fun z => negb (z =? 0).

(** [std::vector<bool>] packs its elements, one bit each, into words;
    [operator[]] hands out a proxy made of the word and a one-bit mask
    instead of a [bool&]. *)
Module vector_bool.

Definition word_bits : nat := 64.

Definition storage : Type := list Z.

Record reference : Type := mk_reference {
  word : Z;
  mask : Z
}.

Definition mask_of (i : nat) : Z :=
  Z.shiftl 1 (Z.of_nat (Nat.modulo i word_bits)).

(** [v[i]] *)
Definition subscript (v : storage) (i : nat) : reference :=
  {| word := nth (Nat.div i word_bits) v 0; mask := mask_of i |}.

(** [reference::operator bool() const] *)
Definition operator_bool (r : reference) : bool :=
  negb (Z.land (word r) (mask r) =? 0).

Fixpoint update_word (v : storage) (k : nat) (f : Z -> Z) : storage :=
  match v, k with
  | [], _ => []
  | w :: rest, O => f w :: rest
  | w :: rest, S k' => w :: update_word rest k' f
  end.

(** [v[i] = b] *)
Definition assign (v : storage) (i : nat) (b : bool) : storage :=
  update_word v (Nat.div i word_bits)
    (fun w => if b then Z.lor w (mask_of i)
              else Z.land w (Z.lnot (mask_of i))).

#[global] Instance explicit_bool_reference : ExplicitBool reference :=
  operator_bool.

End vector_bool.

(** The result type of [handle_bool<ValueType>(Data&&)], which is declared
    [decltype(auto)]. *)
Definition handle_bool_result (ValueType : cpp_type) (Data : Type) : Type :=
  if is_same_v ValueType ty_bool then bool else Data.

(** [communicator_server::handle_bool], a static member.  The conversion
    is used by the [bool] branch only. *)
Definition handle_bool (ValueType : cpp_type) {Data : Type}
  {cast : ExplicitBool Data} (data : Data)
  : handle_bool_result ValueType Data :=
  match is_same_v ValueType ty_bool as same
        return (if same then bool else Data) with
  | true => static_cast_bool data
  | false => data
  end.

(* ================================================================= *)
(** ** class communicator_server *)

Section communicator_server.

(** The state of [hpx::lcos::local::and_gate] and its member
    [next_generation(l, generation, ec)]. *)
Variable and_gate : Type.
Variable next_generation :
  and_gate -> size_t -> error_code -> and_gate * error_code.

(** The environment's answer to [std::vector<T>(n)]: [None] when the
    vector is built, the failure otherwise. *)
Variable allocation : cpp_type -> size_t -> option allocation_failure.

Record communicator_server : Type := mk_communicator_server {
  data_ : unique_any_nonser;
  gate_ : and_gate;
  num_sites_ : size_t;
  on_ready_count_ : size_t;
  current_operation_ : operation_id_type;
  needs_initialization_ : bool;
  data_available_ : bool
}.

(** Modelled from the spec: the constructor [communicator_server(num_sites)]
    is only declared in the header.  The object is created with a fixed
    [num_sites] in the inactive state; the other members take their default
    member initialisers, which the header does give. *)
Definition construct (gate : and_gate) (num_sites : size_t)
  : communicator_server :=
  {| data_ := None;
     gate_ := gate;
     num_sites_ := num_sites;
     on_ready_count_ := 0;
     current_operation_ := nullptr;
     needs_initialization_ := true;
     data_available_ := false |}.

(** *** The monad of member functions *)

Definition M (A : Type) : Type :=
  communicator_server -> outcome A * communicator_server * list call.

Definition ret {A : Type} (a : A) : M A :=
  fun c => (Returned a, c, []).

Definition bind {A B : Type} (m : M A) (k : A -> M B) : M B :=
  fun c =>
    match m c with
    | (Returned a, c1, t1) =>
        match k a c1 with
        | (r, c2, t2) => (r, c2, t1 ++ t2)
        end
    | (Thrown e, c1, t1) => (Thrown e, c1, t1)
    end.

Definition throw {A : Type} (e : exception) : M A :=
  fun c => (Thrown e, c, []).

Definition get : M communicator_server :=
  fun c => (Returned c, c, []).

Definition modify (f : communicator_server -> communicator_server) : M unit :=
  fun c => (Returned tt, f c, []).

Definition emit (e : call) : M unit :=
  fun c => (Returned tt, c, [e]).

(** A scope guarded by an [on_exit] object: [guard] runs when the scope is
    left, by return or by exception. *)
Definition on_exit {A : Type} (guard : communicator_server -> communicator_server)
  (body : M A) : M A :=
  fun c =>
    match body c with
    | (r, c1, t1) => (r, guard c1, t1)
    end.

(** [l.unlock()] on a [std::unique_lock]: with [owns_lock] false it throws
    [std::system_error]. *)
Definition unlock (owns_lock : bool) : M unit :=
  if owns_lock then ret tt else throw system_error.

(** [std::vector<T>(n)] *)
Definition new_vector (T : cpp_type) (n : size_t) : M (vector T) :=
  match allocation T n with
  | None => ret (vector_of_size T n)
  | Some a => throw (allocation_exception a)
  end.

(** [HPX_THROW_EXCEPTION(errcode, func, ...)] *)
Definition HPX_THROW_EXCEPTION {A : Type} (e : error) (func : string) : M A :=
  throw (hpx_exception e func).

(** Modelled from the spec: the macro [HPX_THROWS_IF(ec, errcode, ...)] is
    defined elsewhere.  The error is reported through the error-code
    channel of the gate's completion callback, not thrown. *)
Definition HPX_THROWS_IF (ec : error_code) (e : error) : error_code := e.


Notation "x <- m ;; k" := (bind m (fun x => k))
  (at level 61, m at next level, right associativity).
Notation "m ;; k" := (bind m (fun _ => k))
  (at level 61, right associativity).

(** Running a member function: its outcome, the state it leaves, and the
    calls it made. *)
Definition result_of {A : Type} (m : M A) (c : communicator_server)
  : outcome A := fst (fst (m c)).

Definition state_after {A : Type} (m : M A) (c : communicator_server)
  : communicator_server := snd (fst (m c)).

Definition calls_of {A : Type} (m : M A) (c : communicator_server)
  : list call := snd (m c).

(** *** Assignments to the data members *)

Definition set_data (a : unique_any_nonser) (c : communicator_server)
  : communicator_server :=
  mk_communicator_server a (gate_ c) (num_sites_ c) (on_ready_count_ c)
    (current_operation_ c) (needs_initialization_ c) (data_available_ c).

Definition set_gate (g : and_gate) (c : communicator_server)
  : communicator_server :=
  mk_communicator_server (data_ c) g (num_sites_ c) (on_ready_count_ c)
    (current_operation_ c) (needs_initialization_ c) (data_available_ c).

Definition set_on_ready_count (n : size_t) (c : communicator_server)
  : communicator_server :=
  mk_communicator_server (data_ c) (gate_ c) (num_sites_ c) n
    (current_operation_ c) (needs_initialization_ c) (data_available_ c).

Definition set_current_operation (o : operation_id_type)
  (c : communicator_server) : communicator_server :=
  mk_communicator_server (data_ c) (gate_ c) (num_sites_ c)
    (on_ready_count_ c) o (needs_initialization_ c) (data_available_ c).

Definition set_needs_initialization (b : bool) (c : communicator_server)
  : communicator_server :=
  mk_communicator_server (data_ c) (gate_ c) (num_sites_ c)
    (on_ready_count_ c) (current_operation_ c) b (data_available_ c).

Definition set_data_available (b : bool) (c : communicator_server)
  : communicator_server :=
  mk_communicator_server (data_ c) (gate_ c) (num_sites_ c)
    (on_ready_count_ c) (current_operation_ c) (needs_initialization_ c) b.

(** *** Private member functions *)

Definition get_num_sites (c : communicator_server) (num_values : size_t)
  : size_t :=
  if num_values =? size_t_minus_one then num_sites_ c else num_values.

(** [data == nullptr || data->size() < new_size] *)
Definition must_replace (T : cpp_type) (a : unique_any_nonser)
  (new_size : size_t) : bool :=
  match any_cast T a with
  | None => true
  | Some data => vector_size data <? new_size
  end.

Definition reinitialize_data (T : cpp_type) (num_values : size_t) : M unit :=
  c <- get ;;
  if needs_initialization_ c then
    modify (set_needs_initialization false) ;;
    modify (set_data_available false) ;;
    c1 <- get ;;
    let new_size := get_num_sites c1 num_values in
    if must_replace T (data_ c1) new_size then
      fresh <- new_vector T new_size ;;
      modify (set_data (make_any T fresh))
    else ret tt
  else ret tt.

(** [access_data<T>(num_values)].  The reference form of [any_cast] throws
    when the held type is not [std::vector<T>].  The reference returned is
    modelled by the vector's value; a caller that updates it stores the
    new value back with [set_data]. *)
Definition access_data (T : cpp_type) (num_values : size_t) : M (vector T) :=
  reinitialize_data T num_values ;;
  c <- get ;;
  match any_cast T (data_ c) with
  | Some data => ret data
  | None => throw bad_any_cast
  end.

Definition invalidate_data : M unit :=
  c <- get ;;
  if negb (needs_initialization_ c) then
    modify (set_needs_initialization true) ;;
    modify (set_data_available false) ;;
    modify (set_on_ready_count 0) ;;
    modify (set_current_operation nullptr)
  else ret tt.

(** The call [step(access_data<Data>(num_values), which)]. *)
Definition invoke_step {T : cpp_type} (step : Step T) (num_values : size_t)
  (which : size_t) : M unit :=
  data <- access_data T num_values ;;
  emit (call_step T data which) ;;
  match step data which with
  | (data', r) =>
      modify (set_data (make_any T data')) ;;
      match r with
      | Returned _ => ret tt
      | Thrown e => throw e
      end
  end.

(** The call
    [finalizer(access_data<Data>(num_values), data_available_, which)]:
    the vector and the flag are passed by reference. *)
Definition invoke_finalizer {T : cpp_type} {R : Type}
  (finalizer : Finalizer T R) (num_values : size_t) (which : size_t) : M R :=
  data <- access_data T num_values ;;
  c <- get ;;
  emit (call_finalizer T data (data_available_ c) which) ;;
  match finalizer data (data_available_ c) which with
  | (data', available', r) =>
      modify (set_data (make_any T data')) ;;
      modify (set_data_available available') ;;
      match r with
      | Returned x => ret x
      | Thrown e => throw e
      end
  end.

(** [f.get()] on the gate's shared future: propagate any exception. *)
Definition future_get (f : shared_future_void) : M unit :=
  match f with
  | ready_value => ret tt
  | ready_exception e => throw e
  end.

(** *** handle_data *)

(** The [on_ready] continuation that [handle_data] chains onto the gate's
    shared future.  A null finalizer is [None]; the continuation then
    returns nothing.  [owns_lock] is what
    [std::unique_lock l(mtx_, std::try_to_lock)] found: true when the
    continuation took the mutex itself, false when it was still held, as
    it is when the continuation runs inside the arriving [handle_data]. *)
Definition on_ready {T : cpp_type} {R : Type}
  (operation : operation_id_type) (which : size_t) (num_values : size_t)
  (finalizer : option (Finalizer T R)) (f : shared_future_void)
  (owns_lock : bool) : M (option R) :=
  future_get f ;;
  c <- get ;;
  (if (current_operation_ c =? nullptr)%N
      || negb (current_operation_ c =? operation)%N
   then unlock owns_lock ;;
        HPX_THROW_EXCEPTION invalid_status
          "communicator::handle_data::on_ready"
   else ret tt) ;;
  c <- get ;;
  (if on_ready_count_ c >=? num_sites_ c
   then unlock owns_lock ;;
        HPX_THROW_EXCEPTION invalid_status
          "communicator::handle_data::on_ready"
   else ret tt) ;;
  on_exit (fun c => set_on_ready_count (size_t_incr (on_ready_count_ c)) c)
    match finalizer with
    | Some fin =>
        r <- invoke_finalizer fin num_values which ;;
        ret (Some r)
    | None => ret None
    end.

(** The admission check at the head of [handle_data], made under
    [std::unique_lock l(mtx_)], which owns the mutex. *)
Definition admission_check (operation : operation_id_type) : M unit :=
  c <- get ;;
  if (current_operation_ c =? nullptr)%N then
    (if negb (on_ready_count_ c =? 0)
     then unlock true ;;
          HPX_THROW_EXCEPTION invalid_status "communicator::handle_data"
     else ret tt) ;;
    modify (set_current_operation operation)
  else if negb (current_operation_ c =? operation)%N then
    unlock true ;;
    HPX_THROW_EXCEPTION invalid_status "communicator::handle_data"
  else ret tt.

(** The completion callback that [handle_data] hands to [gate_.set]; the
    gate runs it when the last site of a generation arrives.  Its [gate]
    argument is [gate_] itself and its lock owns the mutex
    ([HPX_ASSERT_OWNS_LOCK]). *)
Definition gate_set_callback (operation : operation_id_type)
  (generation : size_t) (ec : error_code) : M error_code :=
  c <- get ;;
  if negb (on_ready_count_ c =? num_sites_ c) then
    unlock true ;;
    ret (HPX_THROWS_IF ec invalid_status)
  else
    invalidate_data ;;
    c1 <- get ;;
    emit (call_next_generation generation) ;;
    match next_generation (gate_ c1) generation ec with
    | (g, ec') => modify (set_gate g) ;; ret ec'
    end.

(** The part of [handle_data] that is this class's own code: the
    admission check, then the site's [step].  Between the two and after
    the step the source calls into the gate ([get_shared_future], [then],
    [synchronize], [set]); what the gate does there, to itself and by
    running continuations and the completion callback, is not part of this
    definition.  Those runs are the transitions [ev_on_ready] and
    [ev_gate_set_callback] below, and a wait inside [synchronize] is the
    split of an arrival into [ev_admission_check] and [ev_invoke_step].
    Nothing is proved about the gate from this definition. *)
Definition handle_data {T : cpp_type}
  (operation : operation_id_type) (which : size_t) (generation : size_t)
  (step : option (Step T)) (num_values : size_t) : M unit :=
  admission_check operation ;;
  match step with
  | Some st => invoke_step st num_values which
  | None => ret tt
  end.

(** *** The communicator as a transition system *)

Inductive event : Type :=
| ev_handle_data (T : cpp_type) (operation : operation_id_type)
    (which generation : size_t) (step : option (Step T))
    (num_values : size_t)
| ev_admission_check (operation : operation_id_type)
| ev_invoke_step (T : cpp_type) (step : Step T) (num_values which : size_t)
| ev_on_ready (T : cpp_type) (R : Type) (operation : operation_id_type)
    (which num_values : size_t) (finalizer : option (Finalizer T R))
    (f : shared_future_void) (owns_lock : bool)
| ev_gate_set_callback (operation : operation_id_type)
    (generation : size_t) (ec : error_code)
| ev_invalidate_data.

Definition run_event (e : event) (c : communicator_server)
  : communicator_server :=
  match e with
  | ev_handle_data T operation which generation step num_values =>
      state_after (@handle_data T operation which generation step num_values) c
  | ev_admission_check operation =>
      state_after (admission_check operation) c
  | ev_invoke_step T step num_values which =>
      state_after (invoke_step step num_values which) c
  | ev_on_ready T R operation which num_values finalizer f owns_lock =>
      state_after
        (@on_ready T R operation which num_values finalizer f owns_lock) c
  | ev_gate_set_callback operation generation ec =>
      state_after (gate_set_callback operation generation ec) c
  | ev_invalidate_data =>
      state_after invalidate_data c
  end.

Definition run_events (es : list event) (c : communicator_server)
  : communicator_server :=
  fold_left (fun c e => run_event e c) es c.

(** Invariant 2 of the data model. *)
Definition on_ready_count_in_range (c : communicator_server) : Prop :=
  0 <= on_ready_count_ c <= num_sites_ c.

(** *** Vocabulary of the properties *)

(** Two states that agree on everything but the payload and its flags. *)
Definition same_protocol_state (c c' : communicator_server) : Prop :=
  gate_ c' = gate_ c /\ num_sites_ c' = num_sites_ c /\
  on_ready_count_ c' = on_ready_count_ c /\
  current_operation_ c' = current_operation_ c.

(** The checks [on_ready] makes before it touches anything. *)
Definition on_ready_rejects (operation : operation_id_type)
  (c : communicator_server) : bool :=
  (current_operation_ c =? nullptr)%N
  || negb (current_operation_ c =? operation)%N
  || (on_ready_count_ c >=? num_sites_ c).

(** What a transition may do to [on_ready_count_]: leave it, zero it, or
    step it by one from below [num_sites_]. *)
Definition count_step (c c' : communicator_server) : Prop :=
  num_sites_ c' = num_sites_ c /\
  (on_ready_count_ c' = on_ready_count_ c \/
   on_ready_count_ c' = 0 \/
   (on_ready_count_ c < num_sites_ c /\
    on_ready_count_ c' = size_t_incr (on_ready_count_ c))).

End communicator_server.

Arguments mk_communicator_server {and_gate}.
Arguments data_ {and_gate}.
Arguments gate_ {and_gate}.
Arguments num_sites_ {and_gate}.
Arguments on_ready_count_ {and_gate}.
Arguments current_operation_ {and_gate}.
Arguments needs_initialization_ {and_gate}.
Arguments data_available_ {and_gate}.
Arguments construct {and_gate}.
Arguments ret {and_gate A}.
Arguments bind {and_gate A B}.
Arguments throw {and_gate A}.
Arguments get {and_gate}.
Arguments modify {and_gate}.
Arguments emit {and_gate}.
Arguments on_exit {and_gate A}.
Arguments HPX_THROW_EXCEPTION {and_gate A}.
Arguments unlock {and_gate}.
Arguments new_vector {and_gate}.
Arguments result_of {and_gate A}.
Arguments state_after {and_gate A}.
Arguments calls_of {and_gate A}.
Arguments set_data {and_gate}.
Arguments set_gate {and_gate}.
Arguments set_on_ready_count {and_gate}.
Arguments set_current_operation {and_gate}.
Arguments set_needs_initialization {and_gate}.
Arguments set_data_available {and_gate}.
Arguments get_num_sites {and_gate}.
Arguments reinitialize_data {and_gate}.
Arguments access_data {and_gate}.
Arguments invalidate_data {and_gate}.
Arguments invoke_step {and_gate} allocation {T}.
Arguments invoke_finalizer {and_gate} allocation {T R}.
Arguments future_get {and_gate}.
Arguments on_ready {and_gate} allocation {T R}.
Arguments admission_check {and_gate}.
Arguments gate_set_callback {and_gate}.
Arguments handle_data {and_gate} allocation {T}.
Arguments run_event {and_gate}.
Arguments run_events {and_gate}.
Arguments on_ready_count_in_range {and_gate}.
Arguments same_protocol_state {and_gate}.
Arguments on_ready_rejects {and_gate}.
Arguments count_step {and_gate}.

(** Whether an outcome is an [invalid_status] exception. *)
Definition throws_invalid_status {A : Type} (r : outcome A) : bool :=
  match r with
  | Returned _ => false
  | Thrown e => is_invalid_status e
  end.

Definition outcome_map {A B : Type} (f : A -> B) (r : outcome A) : outcome B :=
  match r with
  | Returned a => Returned (f a)
  | Thrown e => Thrown e
  end.

(** The exception [on_ready] throws when one of its checks fails. *)
Definition on_ready_error : exception :=
  hpx_exception invalid_status "communicator::handle_data::on_ready".

(* ================================================================= *)
(** ** Sample collectives *)

(** An environment in the manner of libstdc++ on a 64-bit machine with
    4 GiB to spare: a vector longer than [PTRDIFF_MAX / sizeof(T)] is
    refused with [length_error], one that does not fit the memory with
    [bad_alloc]. *)
Definition sizeof (T : cpp_type) : Z :=
  match T with
  | ty_bool => 1
  | ty_int => 4
  | ty_size_t => 8
  | ty_string => 32
  | ty_vector _ => 24
  end.

Definition sample_allocation (T : cpp_type) (n : size_t)
  : option allocation_failure :=
  if n >? (2 ^ 63 - 1) / sizeof T then Some exceeds_max_size
  else if n * sizeof T >? 2 ^ 32 then Some out_of_memory
  else None.

(** Two sites, a counting gate, one operation token. *)
Definition sample_operation : operation_id_type := 4096%N.

Definition sample_communicator : communicator_server counting_gate :=
  construct (0 : counting_gate) 2.

(** A step that records nothing and a finalizer that reports how long the
    vector it was given is. *)
Definition keep_step : Step ty_int :=
  fun data which => (data, Returned tt).

Definition size_finalizer : Finalizer ty_int Z :=
  fun data available which => (data, available, Returned (vector_size data)).

Definition no_finalizer : option (Finalizer ty_int Z) := None.

(** A finalizer that throws an [invalid_status] of its own, and a step on
    a vector of [bool]. *)
Definition failing_finalizer : Finalizer ty_int Z :=
  fun data available which =>
    (data, available, Thrown (hpx_exception invalid_status "finalizer")).

Definition keep_bool_step : Step ty_bool :=
  fun data which => (data, Returned tt).

(** A collective that never touches the payload: both sites arrive with
    neither step nor finalizer, and both continuations have run. *)
Definition untyped_generation : list event :=
  [ ev_handle_data ty_int sample_operation 0 0 None size_t_minus_one;
    ev_handle_data ty_int sample_operation 1 0 None size_t_minus_one;
    ev_on_ready ty_int Z sample_operation 0 size_t_minus_one no_finalizer
      ready_value false;
    ev_on_ready ty_int Z sample_operation 1 size_t_minus_one no_finalizer
      ready_value false ].

Definition after_untyped_generation : communicator_server counting_gate :=
  run_events counting_next_generation sample_allocation untyped_generation sample_communicator.

(** A complete generation run with five values per site, followed by the
    first arrival of the next generation, which asks for no override. *)
Definition generation_of_five : list event :=
  [ ev_handle_data ty_int sample_operation 0 0 (Some keep_step) 5;
    ev_handle_data ty_int sample_operation 1 0 (Some keep_step) 5;
    ev_on_ready ty_int Z sample_operation 0 5 (Some size_finalizer)
      ready_value false;
    ev_on_ready ty_int Z sample_operation 1 5 (Some size_finalizer)
      ready_value false;
    ev_gate_set_callback sample_operation 0 success ].

Definition next_arrival : list event :=
  [ ev_handle_data ty_int sample_operation 0 1 None size_t_minus_one ].

Definition second_generation : communicator_server counting_gate :=
  run_events counting_next_generation sample_allocation (generation_of_five ++ next_arrival)
    sample_communicator.

(** An all-reduce over three sites: every site stores its contribution at
    its own index, the first finalizer to run folds the vector into
    element 0 and flags it, and every finalizer returns element 0. *)
Definition store_at (value : Z) : Step ty_int :=
  fun data which =>
    (firstn (Z.to_nat which) data ++ value
       :: skipn (S (Z.to_nat which)) data,
     Returned tt).

Definition sum_finalizer : Finalizer ty_int Z :=
  fun data available which =>
    if available then (data, true, Returned (nth 0 data 0))
    else
      let total := fold_right Z.add 0 data in
      (total :: skipn 1 data, true, Returned total).

Definition throwing_finalizer : Finalizer ty_int Z :=
  fun data available which => (data, available, Thrown (foreign_exception 1)).

Definition all_reduce_arrivals : list event :=
  [ ev_handle_data ty_int sample_operation 1 0 (Some (store_at 20))
      size_t_minus_one;
    ev_handle_data ty_int sample_operation 0 0 (Some (store_at 10))
      size_t_minus_one;
    ev_handle_data ty_int sample_operation 2 0 (Some (store_at 12))
      size_t_minus_one ].

Definition all_arrived : communicator_server counting_gate :=
  run_events counting_next_generation sample_allocation all_reduce_arrivals
    (construct (0 : counting_gate) 3).

(** The first generation of [sample_communicator], one site arrived. *)
Definition first_arrival : communicator_server counting_gate :=
  run_events counting_next_generation sample_allocation next_arrival sample_communicator.

(** The first generation of [sample_communicator], one site arrived
    with a step on a vector of [bool]. *)
Definition first_arrival_of_bool : communicator_server counting_gate :=
  run_events counting_next_generation sample_allocation
    [ ev_handle_data ty_bool sample_operation 0 0 (Some keep_bool_step)
        size_t_minus_one ]
    sample_communicator.

(** [generation_of_five] up to, but not including, its completion
    callback. *)
Definition five_counted : communicator_server counting_gate :=
  run_events counting_next_generation sample_allocation (firstn 4 generation_of_five)
    sample_communicator.

(** Three continuations for a communicator of two sites, and a mix of
    further arrivals and continuations, one of them for another
    operation. *)
Definition three_continuations : list event :=
  [ ev_on_ready ty_int Z sample_operation 0 size_t_minus_one
      (Some size_finalizer) ready_value false;
    ev_on_ready ty_int Z sample_operation 1 size_t_minus_one
      (Some throwing_finalizer) ready_value false;
    ev_on_ready ty_int Z sample_operation 0 size_t_minus_one no_finalizer
      ready_value false ].

Definition mixed_arrivals : list event :=
  [ ev_handle_data ty_int sample_operation 1 0 (Some keep_step)
      size_t_minus_one;
    ev_handle_data ty_int 8192%N 1 0 (Some keep_step) size_t_minus_one;
    ev_on_ready ty_int Z 8192%N 0 size_t_minus_one no_finalizer ready_value false;
    ev_on_ready ty_int Z sample_operation 0 size_t_minus_one
      (Some size_finalizer) ready_value false ].

(* ================================================================= *)
(** ** Kinds of transition and states of a generation *)

(** The transitions that can end a generation: the completion callback
    and a direct [invalidate_data]. *)
Definition ends_generation (e : event) : bool :=
  match e with
  | ev_gate_set_callback _ _ _ => true
  | ev_invalidate_data => true
  | _ => false
  end.

(** An [on_ready] run for [operation] on a future that holds no
    exception, with any finalizer and any site. *)
Definition on_ready_of (operation : operation_id_type) (e : event) : bool :=
  match e with
  | ev_on_ready _ _ o _ _ _ ready_value _ => (o =? operation)%N
  | _ => false
  end.

(** How the payload's flags and the counter hang together. *)
Definition consistent {and_gate : Type} (c : communicator_server and_gate)
  : Prop :=
  (needs_initialization_ c = true -> data_available_ c = false) /\
  (current_operation_ c = nullptr -> on_ready_count_ c = 0).

(** The vector length a call asks for: [num_sites_] when [num_values] is
    [static_cast<std::size_t>(-1)], that is [2^64 - 1], and [num_values]
    itself otherwise. *)
Definition required_size {and_gate : Type} (c : communicator_server and_gate)
  (num_values : size_t) : size_t :=
  if num_values =? 18446744073709551615 then num_sites_ c else num_values.

(* ================================================================= *)
(** * Properties *)

(** Unfolding the monad and splitting on the tests a body makes. *)
Ltac unfold_monad :=
  unfold result_of, state_after, calls_of, HPX_THROW_EXCEPTION,
    HPX_THROWS_IF, future_get, unlock, new_vector, bind, ret, throw, get,
    modify, emit, on_exit in *.

Section properties.

Context {and_gate : Type}.
Variable next_generation :
  and_gate -> size_t -> error_code -> and_gate * error_code.
Variable allocation : cpp_type -> size_t -> option allocation_failure.

Implicit Types c : communicator_server and_gate.

(** ** Type-erased storage and machine integers *)

Lemma any_cast_make_any T (v : vector T) :
  any_cast T (make_any T v) = Some v.
Proof.
  unfold any_cast, make_any.
  destruct (cpp_type_eq_dec T T) as [e | n]; [| congruence].
  rewrite (UIP_dec cpp_type_eq_dec e eq_refl); reflexivity.
Qed.

Lemma any_cast_Some_inv T (a : unique_any_nonser) (v : vector T) :
  any_cast T a = Some v -> a = make_any T v.
Proof.
  unfold any_cast, make_any.
  destruct a as [[U w] |]; [| discriminate].
  destruct (cpp_type_eq_dec U T) as [e | n]; [| discriminate].
  subst U; cbn. intros H; inversion H; reflexivity.
Qed.

Lemma any_cast_other_type T U (v : vector U) :
  U <> T -> any_cast T (make_any U v) = None.
Proof.
  intros Hne; unfold any_cast, make_any.
  destruct (cpp_type_eq_dec U T) as [e | n]; [contradiction | reflexivity].
Qed.

Lemma vector_size_vector_of_size T (n : size_t) :
  0 <= n -> vector_size (vector_of_size T n) = n.
Proof.
  intros Hn; unfold vector_size, vector_of_size.
  rewrite repeat_length. apply Z2Nat.id; assumption.
Qed.

Lemma get_num_sites_required c (num_values : size_t) :
  get_num_sites c num_values = required_size c num_values.
Proof. reflexivity. Qed.

Lemma size_t_incr_small (x n : size_t) :
  0 <= x -> x < n -> n < size_t_modulus -> size_t_incr x = x + 1.
Proof.
  intros H0 Hlt Hn; unfold size_t_incr. apply Z.mod_small; lia.
Qed.

Lemma size_t_incr_bounds (x n : size_t) :
  0 <= x -> x < n -> 0 <= size_t_incr x <= n.
Proof.
  intros H0 Hlt; unfold size_t_incr.
  assert (Hm : 0 < size_t_modulus) by reflexivity.
  pose proof (Z.mod_pos_bound (x + 1) size_t_modulus Hm).
  pose proof (Z.mod_le (x + 1) size_t_modulus ltac:(lia) Hm).
  lia.
Qed.

(** ** What each member function computes *)

Lemma reinitialize_data_run T num_values c :
  reinitialize_data allocation T num_values c =
  if needs_initialization_ c then
    if must_replace T (data_ c) (get_num_sites c num_values) then
      match allocation T (get_num_sites c num_values) with
      | None =>
          (Returned tt,
           mk_communicator_server
             (make_any T (vector_of_size T (get_num_sites c num_values)))
             (gate_ c) (num_sites_ c) (on_ready_count_ c)
             (current_operation_ c) false false,
           [])
      | Some a =>
          (Thrown (allocation_exception a),
           mk_communicator_server (data_ c) (gate_ c) (num_sites_ c)
             (on_ready_count_ c) (current_operation_ c) false false,
           [])
      end
    else
      (Returned tt,
       mk_communicator_server (data_ c) (gate_ c) (num_sites_ c)
         (on_ready_count_ c) (current_operation_ c) false false,
       [])
  else (Returned tt, c, []).
Proof.
  unfold reinitialize_data; unfold_monad; destruct c as [d g n k o ni da]; cbn.
  destruct ni; cbn; [| reflexivity].
  unfold get_num_sites; cbn.
  destruct (must_replace T d _); [| reflexivity].
  destruct (allocation T _); reflexivity.
Qed.

Lemma invalidate_data_run c :
  invalidate_data c =
  (Returned tt,
   if needs_initialization_ c then c
   else mk_communicator_server (data_ c) (gate_ c) (num_sites_ c) 0 nullptr
          true false,
   []).
Proof.
  unfold invalidate_data; unfold_monad; destruct c as [d g n k o ni da]; cbn.
  destruct ni; reflexivity.
Qed.

Lemma access_data_run T num_values c :
  access_data allocation T num_values c =
  match result_of (reinitialize_data allocation T num_values) c with
  | Thrown e =>
      (Thrown e, state_after (reinitialize_data allocation T num_values) c,
       [])
  | Returned _ =>
      (match any_cast T
               (data_ (state_after
                         (reinitialize_data allocation T num_values) c)) with
       | Some v => Returned v
       | None => Thrown bad_any_cast
       end,
       state_after (reinitialize_data allocation T num_values) c,
       [])
  end.
Proof.
  unfold access_data, bind at 1, result_of, state_after.
  rewrite reinitialize_data_run.
  destruct (needs_initialization_ c);
    [destruct (must_replace _ _ _); [destruct (allocation T _) |] |];
    cbn [fst snd]; try reflexivity; unfold_monad;
    match goal with
    | |- context [any_cast T (data_ ?s)] => destruct (any_cast T (data_ s))
    end; reflexivity.
Qed.

(** The state a typed access leaves, whether it returns or throws. *)
Lemma access_data_shape T num_values c :
  let c1 := state_after (access_data allocation T num_values) c in
  calls_of (access_data allocation T num_values) c = [] /\
  same_protocol_state c c1 /\
  needs_initialization_ c1 = false /\
  (needs_initialization_ c = false -> c1 = c) /\
  (needs_initialization_ c = true -> data_available_ c1 = false) /\
  (data_ c1 = data_ c \/ exists v : vector T, data_ c1 = make_any T v) /\
  (forall v, result_of (access_data allocation T num_values) c = Returned v ->
   data_ c1 = make_any T v).
Proof.
  cbn zeta. unfold calls_of, state_after, result_of.
  rewrite access_data_run. unfold result_of, state_after.
  rewrite reinitialize_data_run.
  assert (Hcast : forall (a : unique_any_nonser) (v : vector T),
            match any_cast T a with
            | Some w => Returned w
            | None => Thrown bad_any_cast
            end = Returned v -> a = make_any T v).
  { intros a v H. apply any_cast_Some_inv.
    destruct (any_cast T a); inversion H; reflexivity. }
  destruct (needs_initialization_ c) eqn:Hinit;
    [destruct (must_replace _ _ _); [destruct (allocation T _) |] |];
    cbn [fst snd]; (split; [reflexivity |]);
    (split; [repeat split |]); (split; [auto |]);
    (split; [intros; try discriminate; auto |]);
    (split; [intros; try discriminate; auto |]);
    (split; [cbn; eauto |]); try (intros v H; discriminate H);
    intros v H; cbn; apply Hcast; exact H.
Qed.

Lemma access_data_returns T num_values c (v : vector T) :
  result_of (access_data allocation T num_values) c = Returned v ->
  needs_initialization_ (state_after (access_data allocation T num_values) c)
    = false /\
  data_ (state_after (access_data allocation T num_values) c) = make_any T v.
Proof.
  intros H.
  destruct (access_data_shape T num_values c) as (_ & _ & Hi & _ & _ & _ & Hd).
  split; [exact Hi | apply Hd; exact H].
Qed.

Lemma access_data_initialized T num_values c :
  needs_initialization_ c = false ->
  access_data allocation T num_values c =
  (match any_cast T (data_ c) with
   | Some v => Returned v
   | None => Thrown bad_any_cast
   end, c, []).
Proof.
  intros Hinit. rewrite access_data_run. unfold result_of, state_after.
  rewrite reinitialize_data_run, Hinit. reflexivity.
Qed.

Lemma invoke_finalizer_run T R (fin : Finalizer T R)
  (num_values which : size_t) c :
  let c1 := state_after (access_data allocation T num_values) c in
  invoke_finalizer allocation fin num_values which c =
  match result_of (access_data allocation T num_values) c with
  | Thrown e => (Thrown e, c1, [])
  | Returned data =>
      (snd (fin data (data_available_ c1) which),
       set_data_available (snd (fst (fin data (data_available_ c1) which)))
         (set_data
            (make_any T (fst (fst (fin data (data_available_ c1) which))))
            c1),
       [call_finalizer T data (data_available_ c1) which])
  end.
Proof.
  intros c1.
  destruct (access_data_shape T num_values c) as (Hcalls & _).
  unfold invoke_finalizer, bind at 1. subst c1.
  unfold calls_of, result_of, state_after in *.
  destruct (access_data allocation T num_values c) as [[[data | e] s] t];
    cbn [fst snd] in *; subst t; [| reflexivity].
  unfold_monad; cbn.
  destruct (fin data (data_available_ s) which) as [[d a] [x | e]];
    reflexivity.
Qed.

Lemma invoke_step_run T (step : Step T) (num_values which : size_t) c :
  let c1 := state_after (access_data allocation T num_values) c in
  invoke_step allocation step num_values which c =
  match result_of (access_data allocation T num_values) c with
  | Thrown e => (Thrown e, c1, [])
  | Returned data =>
      (snd (step data which),
       set_data (make_any T (fst (step data which))) c1,
       [call_step T data which])
  end.
Proof.
  intros c1.
  destruct (access_data_shape T num_values c) as (Hcalls & _).
  unfold invoke_step, bind at 1. subst c1.
  unfold calls_of, result_of, state_after in *.
  destruct (access_data allocation T num_values c) as [[[data | e] s] t];
    cbn [fst snd] in *; subst t; [| reflexivity].
  unfold_monad; cbn.
  destruct (step data which) as [d [[] | e]]; reflexivity.
Qed.

Lemma invoke_finalizer_protocol T R (fin : Finalizer T R)
  (num_values which : size_t) c :
  same_protocol_state c
    (state_after (invoke_finalizer allocation fin num_values which) c).
Proof.
  unfold state_after at 1; rewrite invoke_finalizer_run.
  destruct (access_data_shape T num_values c) as (_ & H & _).
  destruct (result_of _ c); cbn; exact H.
Qed.

Lemma invoke_step_protocol T (step : Step T) (num_values which : size_t) c :
  same_protocol_state c
    (state_after (invoke_step allocation step num_values which) c).
Proof.
  unfold state_after at 1; rewrite invoke_step_run.
  destruct (access_data_shape T num_values c) as (_ & H & _).
  destruct (result_of _ c); cbn; exact H.
Qed.

Lemma on_ready_rejects_true (operation : operation_id_type) c :
  on_ready_rejects operation c = true <->
  current_operation_ c = nullptr \/ current_operation_ c <> operation \/
  on_ready_count_ c >= num_sites_ c.
Proof.
  unfold on_ready_rejects.
  rewrite !orb_true_iff, negb_true_iff, N.eqb_eq, N.eqb_neq, Z.geb_le.
  intuition lia.
Qed.

Lemma on_ready_rejects_false (operation : operation_id_type) c :
  on_ready_rejects operation c = false <->
  current_operation_ c <> nullptr /\ current_operation_ c = operation /\
  on_ready_count_ c < num_sites_ c.
Proof.
  unfold on_ready_rejects.
  rewrite !orb_false_iff, negb_false_iff, N.eqb_eq, N.eqb_neq, Z.geb_leb,
    Z.leb_gt.
  intuition lia.
Qed.

Lemma on_ready_run T R (operation : operation_id_type)
  (which num_values : size_t) (finalizer : option (Finalizer T R))
  (f : shared_future_void) (owns_lock : bool) c :
  on_ready allocation operation which num_values finalizer f owns_lock c =
  match f with
  | ready_exception e => (Thrown e, c, [])
  | ready_value =>
      if on_ready_rejects operation c then
        (Thrown (if owns_lock then on_ready_error else system_error), c, [])
      else
        match finalizer with
        | None =>
            (Returned None,
             set_on_ready_count (size_t_incr (on_ready_count_ c)) c, [])
        | Some fin =>
            let run := invoke_finalizer allocation fin num_values which in
            (outcome_map Some (result_of run c),
             set_on_ready_count
               (size_t_incr (on_ready_count_ (state_after run c)))
               (state_after run c),
             calls_of run c)
        end
  end.
Proof.
  unfold on_ready, on_ready_rejects, on_ready_error.
  destruct f as [| e]; [| reflexivity].
  unfold_monad; cbn.
  destruct (current_operation_ c =? nullptr)%N; cbn;
    [destruct owns_lock; reflexivity |].
  destruct (current_operation_ c =? operation)%N; cbn;
    [| destruct owns_lock; reflexivity].
  destruct (on_ready_count_ c >=? num_sites_ c); cbn;
    [destruct owns_lock; reflexivity |].
  destruct finalizer as [fin |]; [| reflexivity].
  destruct (invoke_finalizer allocation fin num_values which c)
    as [[[x | e] s] t]; cbn; rewrite ?app_nil_r; reflexivity.
Qed.

Lemma admission_check_run (operation : operation_id_type) c :
  admission_check operation c =
  if (current_operation_ c =? nullptr)%N then
    if negb (on_ready_count_ c =? 0) then
      (Thrown (hpx_exception invalid_status "communicator::handle_data"),
       c, [])
    else (Returned tt, set_current_operation operation c, [])
  else if negb (current_operation_ c =? operation)%N then
    (Thrown (hpx_exception invalid_status "communicator::handle_data"),
     c, [])
  else (Returned tt, c, []).
Proof.
  unfold admission_check; unfold_monad.
  destruct (current_operation_ c =? nullptr)%N.
  - destruct (on_ready_count_ c =? 0); reflexivity.
  - destruct (current_operation_ c =? operation)%N; reflexivity.
Qed.

Lemma gate_set_callback_run (operation : operation_id_type)
  (generation : size_t) (ec : error_code) c :
  gate_set_callback next_generation operation generation ec c =
  if negb (on_ready_count_ c =? num_sites_ c) then
    (Returned invalid_status, c, [])
  else
    (Returned (snd (next_generation (gate_ c) generation ec)),
     set_gate (fst (next_generation (gate_ c) generation ec))
       (state_after invalidate_data c),
     [call_next_generation generation]).
Proof.
  unfold gate_set_callback, bind at 1, get at 1.
  destruct (on_ready_count_ c =? num_sites_ c); cbn [negb]; [| reflexivity].
  unfold bind at 1, state_after. rewrite invalidate_data_run; cbn.
  unfold_monad; cbn.
  destruct c as [d g n k o ni da]; cbn.
  destruct ni; cbn; destruct (next_generation g generation ec);
    reflexivity.
Qed.

Lemma handle_data_run T (operation : operation_id_type)
  (which generation : size_t) (step : option (Step T))
  (num_values : size_t) c :
  handle_data allocation operation which generation step num_values c =
  match result_of (admission_check operation) c with
  | Thrown e => (Thrown e, c, [])
  | Returned _ =>
      match step with
      | None => (Returned tt, state_after (admission_check operation) c, [])
      | Some st =>
          invoke_step allocation st num_values which
            (state_after (admission_check operation) c)
      end
  end.
Proof.
  unfold handle_data, bind, result_of, state_after.
  rewrite admission_check_run.
  destruct (current_operation_ c =? nullptr)%N.
  - destruct (on_ready_count_ c =? 0); cbn [negb fst snd]; [| reflexivity].
    destruct step as [st |]; [| reflexivity].
    destruct (invoke_step allocation st num_values which _) as [[r s] t];
      reflexivity.
  - destruct (current_operation_ c =? operation)%N; cbn [negb fst snd];
      [| reflexivity].
    destruct step as [st |]; [| reflexivity].
    destruct (invoke_step allocation st num_values which _) as [[r s] t];
      reflexivity.
Qed.

(** ** The claims about single member functions *)

(** C4.  The admission check raises [invalid_status] exactly when
    [current_operation_] is null while [on_ready_count_] is not zero, or
    [current_operation_] is non-null and differs from the arriving token.
    When it passes with a null [current_operation_] it stores the arriving
    token; when it passes with [current_operation_ == operation] the state
    is unchanged.  No other member is ever written. *)
Theorem admission_check_spec (operation : operation_id_type) c :
  let r := result_of (admission_check operation) c in
  let c' := state_after (admission_check operation) c in
  (throws_invalid_status r = true <->
   (current_operation_ c = nullptr /\ on_ready_count_ c <> 0) \/
   (current_operation_ c <> nullptr /\ current_operation_ c <> operation)) /\
  (throws_invalid_status r = false -> r = Returned tt) /\
  (r = Returned tt -> current_operation_ c = nullptr ->
   current_operation_ c' = operation) /\
  (r = Returned tt -> current_operation_ c = operation -> c' = c) /\
  (throws_invalid_status r = true -> c' = c) /\
  c' = set_current_operation (current_operation_ c') c /\
  calls_of (admission_check operation) c = [].
Proof.
  cbn zeta. unfold result_of, state_after, calls_of.
  rewrite admission_check_run.
  destruct c as [d g n k o ni da]; cbn.
  destruct (N.eqb_spec o nullptr) as [Ho | Ho]; cbn.
  - destruct (Z.eqb_spec k 0) as [Hk | Hk]; cbn; unfold set_current_operation;
      cbn; repeat split; intros; subst;
      try solve [intuition (congruence || discriminate)].
  - destruct (N.eqb_spec o operation) as [Hop | Hop]; cbn;
      unfold set_current_operation; cbn; repeat split; intros; subst;
      try solve [intuition (congruence || discriminate)].
Qed.

(** C2 (as amended).  [on_ready] adds exactly one to [on_ready_count_] on
    every exit path taken after both of its checks have passed: normal
    return, a throwing finalizer, a failing typed access.  When the shared
    future carries an exception, or the operation re-check or the
    excessive-[on_ready] check fails, it throws and [on_ready_count_] is
    left as it was. *)
Theorem on_ready_count_after_on_ready T R (operation : operation_id_type)
  (which num_values : size_t) (finalizer : option (Finalizer T R))
  (f : shared_future_void) (owns_lock : bool) c :
  is_size_t (on_ready_count_ c) ->
  is_size_t (num_sites_ c) ->
  let run := on_ready allocation operation which num_values finalizer f
               owns_lock in
  (f = ready_value ->
   current_operation_ c <> nullptr -> current_operation_ c = operation ->
   on_ready_count_ c < num_sites_ c ->
   on_ready_count_ (state_after run c) = on_ready_count_ c + 1) /\
  ((exists e, f = ready_exception e) \/
   current_operation_ c = nullptr \/ current_operation_ c <> operation \/
   on_ready_count_ c >= num_sites_ c ->
   on_ready_count_ (state_after run c) = on_ready_count_ c /\
   exists e, result_of run c = Thrown e).
Proof.
  intros [Hk0 _] [_ Hn] run; subst run.
  unfold state_after, result_of; rewrite on_ready_run.
  split.
  - intros -> Hnull Hop Hlt.
    assert (Hrej : on_ready_rejects operation c = false)
      by (apply on_ready_rejects_false; auto).
    rewrite Hrej.
    destruct finalizer as [fin |]; cbn.
    + destruct (invoke_finalizer_protocol T R fin num_values which c)
        as (_ & _ & Hcount & _).
      rewrite Hcount. eapply size_t_incr_small; eauto.
    + eapply size_t_incr_small; eauto.
  - intros [[e ->] | Hrej]; cbn.
    + split; [reflexivity | eexists; reflexivity].
    + destruct f as [| e]; cbn.
      * apply on_ready_rejects_true in Hrej; rewrite Hrej; cbn.
        split; [reflexivity | eexists; reflexivity].
      * split; [reflexivity | eexists; reflexivity].
Qed.

Lemma access_data_never_invalid_status T num_values c (e : exception) :
  result_of (access_data allocation T num_values) c = Thrown e ->
  is_invalid_status e = false.
Proof.
  unfold result_of at 1. rewrite access_data_run.
  unfold result_of, state_after. rewrite reinitialize_data_run.
  destruct (needs_initialization_ c);
    [destruct (must_replace _ _ _); [destruct (allocation T _) as [[] |] |] |];
    cbn [fst snd];
    try match goal with
        | |- context [any_cast T ?a] => destruct (any_cast T a)
        end;
    intros H; inversion H; reflexivity.
Qed.

(** C5 (as amended).  [on_ready] first rethrows whatever exception the
    gate's future holds.  With none held, its own checks refuse the run,
    before any call and with no member changed, exactly when
    [current_operation_] is null or differs from the arrival's token, or
    [on_ready_count_ >= num_sites_]; a continuation that took the lock
    itself then throws [invalid_status].  Otherwise, with no finalizer it
    returns nothing; with a finalizer it evaluates
    [finalizer(access_data<T>(num_values), data_available_, which)] once:
    if the typed access returns a vector the finalizer is called exactly
    once, on that vector, and its return value or exception is the site's
    result; if the typed access throws, that exception is the site's
    result and the finalizer is not called.  An [invalid_status] that
    leaves a run which passed the checks is the finalizer's own. *)
Theorem on_ready_spec T R (operation : operation_id_type)
  (which num_values : size_t) (finalizer : option (Finalizer T R))
  (f : shared_future_void) (owns_lock : bool) c :
  let run := on_ready allocation operation which num_values finalizer f
               owns_lock in
  let access := access_data allocation T num_values in
  let rejected :=
    current_operation_ c = nullptr \/ current_operation_ c <> operation \/
    on_ready_count_ c >= num_sites_ c in
  (forall e, f = ready_exception e -> run c = (Thrown e, c, [])) /\
  (f = ready_value -> rejected ->
   (exists e, result_of run c = Thrown e) /\
   calls_of run c = [] /\ state_after run c = c /\
   (owns_lock = true -> result_of run c = Thrown on_ready_error)) /\
  (f = ready_value -> ~ rejected -> finalizer = None ->
   result_of run c = Returned None /\ calls_of run c = []) /\
  (f = ready_value -> ~ rejected -> forall fin, finalizer = Some fin ->
   match result_of access c with
   | Returned data =>
       let available := data_available_ (state_after access c) in
       calls_of run c = [call_finalizer T data available which] /\
       result_of run c = outcome_map Some (snd (fin data available which))
   | Thrown e =>
       calls_of run c = [] /\ result_of run c = Thrown e
   end) /\
  (f = ready_value -> ~ rejected ->
   throws_invalid_status (result_of run c) = true ->
   exists fin data available,
     finalizer = Some fin /\
     calls_of run c = [call_finalizer T data available which] /\
     throws_invalid_status (snd (fin data available which)) = true).
Proof.
  cbn zeta. unfold result_of, calls_of, state_after.
  rewrite on_ready_run.
  split; [intros e ->; reflexivity |].
  destruct f as [| e0].
  2: { repeat split; intros; congruence. }
  destruct (on_ready_rejects operation c) eqn:Hrej.
  - assert (Hr : current_operation_ c = nullptr \/
                 current_operation_ c <> operation \/
                 on_ready_count_ c >= num_sites_ c)
      by (apply on_ready_rejects_true; exact Hrej).
    cbn [fst snd]. split; [| split; [| split]]; try (intros _ H; contradiction).
    intros _ _. split; [eexists; reflexivity |].
    split; [reflexivity | split; [reflexivity |]].
    intros ->; reflexivity.
  - assert (Hr : ~ (current_operation_ c = nullptr \/
                    current_operation_ c <> operation \/
                    on_ready_count_ c >= num_sites_ c)).
    { intros H; apply on_ready_rejects_true in H; congruence. }
    split; [intros _ H; contradiction |].
    split; [intros _ _ ->; split; reflexivity |].
    split.
    + intros _ _ fin ->. cbn [fst snd]. unfold result_of, calls_of.
      rewrite invoke_finalizer_run. unfold result_of, state_after.
      destruct (fst (fst (access_data allocation T num_values c)));
        cbn [fst snd]; split; reflexivity.
    + intros _ _. destruct finalizer as [fin |]; cbn [fst snd];
        [| intros H; discriminate H].
      unfold result_of, calls_of. rewrite invoke_finalizer_run.
      destruct (result_of (access_data allocation T num_values) c)
        as [data | e] eqn:Hacc; cbn [fst snd].
      * intros H. exists fin, data. eexists. split; [reflexivity |].
        split; [reflexivity |].
        destruct (snd (fin data _ which)); [discriminate H | exact H].
      * intros H. cbn in H.
        rewrite (access_data_never_invalid_status T num_values c e Hacc) in H.
        discriminate H.
Qed.

(** The first typed access of a generation, case by case. *)
Lemma first_access_run T num_values c :
  needs_initialization_ c = true ->
  let n := required_size c num_values in
  let cleared :=
    mk_communicator_server (data_ c) (gate_ c) (num_sites_ c)
      (on_ready_count_ c) (current_operation_ c) false false in
  let fresh : vector T := repeat (value_init T) (Z.to_nat n) in
  (forall v, any_cast T (data_ c) = Some v -> n <= vector_size v ->
   reinitialize_data allocation T num_values c = (Returned tt, cleared, []) /\
   access_data allocation T num_values c = (Returned v, cleared, [])) /\
  (any_cast T (data_ c) = None \/
   (exists v, any_cast T (data_ c) = Some v /\ vector_size v < n) ->
   (allocation T n = None ->
    reinitialize_data allocation T num_values c
    = (Returned tt, set_data (make_any T fresh) cleared, []) /\
    access_data allocation T num_values c
    = (Returned fresh, set_data (make_any T fresh) cleared, [])) /\
   (forall a, allocation T n = Some a ->
    reinitialize_data allocation T num_values c
    = (Thrown (allocation_exception a), cleared, []) /\
    access_data allocation T num_values c
    = (Thrown (allocation_exception a), cleared, []))).
Proof.
  intros Hinit n cleared fresh.
  assert (Hre := reinitialize_data_run T num_values c).
  rewrite Hinit, get_num_sites_required in Hre. fold n in Hre.
  assert (Hacc := access_data_run T num_values c).
  unfold result_of, state_after in Hacc.
  split.
  - intros v Hv Hle.
    assert (Hm : must_replace T (data_ c) n = false).
    { unfold must_replace. rewrite Hv. apply Z.ltb_ge; exact Hle. }
    rewrite Hm in Hre. rewrite Hre in Hacc. cbn [fst snd data_] in Hacc.
    rewrite Hv in Hacc. split; assumption.
  - intros Hcond.
    assert (Hm : must_replace T (data_ c) n = true).
    { unfold must_replace.
      destruct Hcond as [-> | (v & -> & Hlt)]; [reflexivity |].
      apply Z.ltb_lt; exact Hlt. }
    rewrite Hm in Hre. split.
    + intros Hal. rewrite Hal in Hre. rewrite Hre in Hacc.
      cbn [fst snd data_] in Hacc. rewrite any_cast_make_any in Hacc.
      split; assumption.
    + intros a Hal. rewrite Hal in Hre. rewrite Hre in Hacc.
      split; assumption.
Qed.

(** C7 (as amended).  On the first typed access of a generation
    ([needs_initialization_ == true]) the required length is [num_sites_],
    or [num_values] when that is not [-1].  When the stored value is not a
    [vector<T>] or is shorter than required, a fresh [vector<T>] of
    exactly the required length, every element value-initialised, is
    constructed; if the construction succeeds it replaces the stored
    value, and if it throws the exception propagates and the stored value
    is left as it was.  Otherwise the stored value is kept.  In each case
    both flags have been set to [false] and no other member changes. *)
Theorem reinitialize_data_first_access T num_values c :
  needs_initialization_ c = true ->
  0 <= required_size c num_values ->
  let n := required_size c num_values in
  let run := reinitialize_data allocation T num_values in
  let fresh : vector T := repeat (value_init T) (Z.to_nat n) in
  (any_cast T (data_ c) = None \/
   (exists v, any_cast T (data_ c) = Some v /\ vector_size v < n) ->
   (allocation T n = None ->
    result_of run c = Returned tt /\
    data_ (state_after run c) = make_any T fresh /\
    vector_size fresh = n) /\
   (forall a, allocation T n = Some a ->
    result_of run c = Thrown (allocation_exception a) /\
    data_ (state_after run c) = data_ c)) /\
  (forall v, any_cast T (data_ c) = Some v -> n <= vector_size v ->
   result_of run c = Returned tt /\
   data_ (state_after run c) = data_ c) /\
  needs_initialization_ (state_after run c) = false /\
  data_available_ (state_after run c) = false /\
  same_protocol_state c (state_after run c).
Proof.
  intros Hinit Hn n run fresh. subst run.
  destruct (first_access_run T num_values c Hinit) as [Hkeep Hnew].
  fold n in Hkeep, Hnew. fold fresh in Hnew.
  unfold result_of, state_after.
  split; [| split].
  - intros Hcond. destruct (Hnew Hcond) as [Hok Hfail]. split.
    + intros Hal. destruct (Hok Hal) as [-> _]. cbn.
      repeat split. apply (vector_size_vector_of_size T n Hn).
    + intros a Hal. destruct (Hfail a Hal) as [-> _]. split; reflexivity.
  - intros v Hv Hle. destruct (Hkeep v Hv Hle) as [-> _]. split; reflexivity.
  - rewrite reinitialize_data_run, Hinit.
    destruct (must_replace _ _ _); [destruct (allocation T _) |];
      cbn; repeat split.
Qed.

(** C6 (as amended).  When [on_ready] passes its checks and its finalizer
    makes the first typed access of a generation, the required length is
    [num_sites_], or [num_values] when that is not [-1].  A stored
    [vector<T>] at least that long is handed to the finalizer as it is,
    however long.  Otherwise a fresh vector of exactly the required length
    is handed over, provided it can be constructed; if it cannot, the
    exception is the site's result and the finalizer is not called.  On a
    later typed access the stored vector is passed as it is. *)
Theorem finalizer_vector_length T R (operation : operation_id_type)
  (which num_values : size_t) (fin : Finalizer T R) (owns_lock : bool) c :
  current_operation_ c <> nullptr ->
  current_operation_ c = operation ->
  on_ready_count_ c < num_sites_ c ->
  0 <= required_size c num_values ->
  let run := on_ready allocation operation which num_values (Some fin)
               ready_value owns_lock in
  let n := required_size c num_values in
  let fresh : vector T := repeat (value_init T) (Z.to_nat n) in
  (needs_initialization_ c = true ->
   (forall v, any_cast T (data_ c) = Some v -> n <= vector_size v ->
    calls_of run c = [call_finalizer T v false which]) /\
   (any_cast T (data_ c) = None \/
    (exists v, any_cast T (data_ c) = Some v /\ vector_size v < n) ->
    (allocation T n = None ->
     calls_of run c = [call_finalizer T fresh false which] /\
     vector_size fresh = n) /\
    (forall a, allocation T n = Some a ->
     calls_of run c = [] /\
     result_of run c = Thrown (allocation_exception a)))) /\
  (needs_initialization_ c = false ->
   forall v, any_cast T (data_ c) = Some v ->
   calls_of run c = [call_finalizer T v (data_available_ c) which]).
Proof.
  intros Hnull Hop Hlt Hn run n fresh; subst run.
  assert (Hrej : on_ready_rejects operation c = false)
    by (apply on_ready_rejects_false; auto).
  unfold calls_of at 1 2 3 4, result_of at 1.
  rewrite on_ready_run, Hrej. cbn [fst snd].
  unfold calls_of, result_of. rewrite invoke_finalizer_run.
  unfold result_of, state_after.
  split.
  - intros Hinit.
    destruct (first_access_run T num_values c Hinit) as [Hkeep Hnew].
    fold n in Hkeep, Hnew. fold fresh in Hnew. split.
    + intros v Hv Hle. destruct (Hkeep v Hv Hle) as [_ ->]. reflexivity.
    + intros Hcond. destruct (Hnew Hcond) as [Hok Hfail]. split.
      * intros Hal. destruct (Hok Hal) as [_ ->]. cbn.
        split; [reflexivity | apply (vector_size_vector_of_size T n Hn)].
      * intros a Hal. destruct (Hfail a Hal) as [_ ->]. split; reflexivity.
  - intros Hinit v Hv. rewrite (access_data_initialized T num_values c Hinit).
    rewrite Hv. reflexivity.
Qed.

(** ** The invariant on [on_ready_count_] *)

Lemma same_protocol_count_step c c' :
  same_protocol_state c c' -> count_step c c'.
Proof. intros (_ & Hn & Hk & _); split; auto. Qed.

Lemma invalidate_data_count_step c :
  count_step c (state_after invalidate_data c).
Proof.
  unfold state_after; rewrite invalidate_data_run; cbn.
  destruct (needs_initialization_ c); split; cbn; auto.
Qed.

Lemma admission_check_protocol (operation : operation_id_type) c :
  count_step c (state_after (admission_check operation) c).
Proof.
  unfold state_after; rewrite admission_check_run.
  destruct (current_operation_ c =? nullptr)%N.
  - destruct (on_ready_count_ c =? 0); split; cbn; auto.
  - destruct (current_operation_ c =? operation)%N; split; cbn; auto.
Qed.

Lemma handle_data_count_step T (operation : operation_id_type)
  (which generation : size_t) (step : option (Step T))
  (num_values : size_t) c :
  count_step c
    (state_after
       (handle_data allocation operation which generation step num_values) c).
Proof.
  pose proof (admission_check_protocol operation c) as Hadm.
  unfold state_after at 1. rewrite handle_data_run.
  destruct (result_of (admission_check operation) c) eqn:Hres.
  - destruct step as [st |]; cbn [fst snd]; [| exact Hadm].
    pose proof (invoke_step_protocol T st num_values which
                  (state_after (admission_check operation) c)) as Hst.
    unfold state_after in Hst, Hadm |- *.
    destruct Hadm as [Hn Hk], Hst as (_ & Hn2 & Hk2 & _).
    split; [congruence |]. rewrite Hk2, Hn in *. exact Hk.
  - cbn. split; auto.
Qed.

Lemma on_ready_count_step T R (operation : operation_id_type)
  (which num_values : size_t) (finalizer : option (Finalizer T R))
  (f : shared_future_void) (owns_lock : bool) c :
  count_step c
    (state_after
       (on_ready allocation operation which num_values finalizer f
          owns_lock) c).
Proof.
  unfold state_after at 1; rewrite on_ready_run.
  destruct f as [| e]; [| split; auto].
  destruct (on_ready_rejects operation c) eqn:Hrej; [split; auto |].
  apply on_ready_rejects_false in Hrej; destruct Hrej as (_ & _ & Hlt).
  destruct finalizer as [fin |]; cbn [fst snd].
  - destruct (invoke_finalizer_protocol T R fin num_values which c)
      as (_ & Hn & Hk & _).
    split; cbn; [exact Hn | rewrite Hk; auto].
  - split; cbn; auto.
Qed.

Lemma gate_set_callback_count_step (operation : operation_id_type)
  (generation : size_t) (ec : error_code) c :
  count_step c
    (state_after
       (gate_set_callback next_generation operation generation ec) c).
Proof.
  unfold state_after at 1; rewrite gate_set_callback_run.
  destruct (on_ready_count_ c =? num_sites_ c); cbn [negb fst snd].
  - destruct (invalidate_data_count_step c) as [Hn Hk].
    split; cbn; assumption.
  - split; auto.
Qed.

Lemma run_event_count_step (e : event) c :
  count_step c (run_event next_generation allocation e c).
Proof.
  destruct e; cbn [run_event].
  - apply handle_data_count_step.
  - apply admission_check_protocol.
  - apply same_protocol_count_step, invoke_step_protocol.
  - apply on_ready_count_step.
  - apply gate_set_callback_count_step.
  - apply invalidate_data_count_step.
Qed.

Lemma count_step_in_range c c' :
  count_step c c' -> on_ready_count_in_range c -> on_ready_count_in_range c'.
Proof.
  unfold on_ready_count_in_range.
  intros [Hn [Hk | [Hk | [Hlt Hk]]]] [H0 Hle]; rewrite Hn, Hk; try lia.
  apply size_t_incr_bounds; assumption.
Qed.

Lemma run_events_in_range (es : list event) c :
  on_ready_count_in_range c ->
  on_ready_count_in_range (run_events next_generation allocation es c) /\
  num_sites_ (run_events next_generation allocation es c) = num_sites_ c.
Proof.
  revert c; induction es as [| e es IH]; intros c Hc; cbn; [auto |].
  pose proof (run_event_count_step e c) as Hstep.
  destruct (IH (run_event next_generation allocation e c)
              (count_step_in_range _ _ Hstep Hc)) as [Hr Hn].
  split; [exact Hr |]. unfold run_events in Hn; cbn in Hn.
  rewrite Hn. apply Hstep.
Qed.

(** C8.  [0 <= on_ready_count_ <= num_sites_] holds in every state that a
    communicator built for [num_sites] sites reaches through [handle_data]
    calls (whole, or split at the gate's wait into admission check and
    step), [on_ready] runs, completion callbacks and [invalidate_data]
    calls, in any number and order; [num_sites_] itself never changes. *)
Theorem on_ready_count_invariant (gate : and_gate) (num_sites : size_t)
  (es : list event) :
  is_size_t num_sites ->
  on_ready_count_in_range
    (run_events next_generation allocation es (construct gate num_sites)) /\
  num_sites_
    (run_events next_generation allocation es (construct gate num_sites))
    = num_sites.
Proof.
  intros [H0 _].
  apply (run_events_in_range es (construct gate num_sites)).
  unfold on_ready_count_in_range; cbn; lia.
Qed.

(** C10 (as amended).  The token of a collective that does not specialise
    [communicator_data] is the null pointer.  An admission check with that
    token never stores anything: it leaves the communicator as it found
    it, turning the call away with [invalid_status] when another
    operation is current (or continuations are counted) and otherwise
    letting it in with [current_operation_] still null.  Every run of [on_ready] for such an
    arrival, in whatever state, throws, calls no finalizer and changes
    nothing: it rethrows the exception the gate's future holds, if any,
    and otherwise fails its own check, with [invalid_status] when it took
    the lock itself.  So the collective never completes. *)
Theorem unspecialized_operation_never_completes (Operation : Type)
  T R (which num_values : size_t) (finalizer : option (Finalizer T R))
  (f : shared_future_void) (owns_lock : bool) c :
  let operation := @id Operation (communicator_data_primary Operation) in
  operation = nullptr /\
  match result_of (admission_check operation) c with
  | Returned _ =>
      current_operation_ (state_after (admission_check operation) c)
        = nullptr
  | Thrown e =>
      is_invalid_status e = true /\
      (current_operation_ c <> nullptr \/ on_ready_count_ c <> 0)
  end /\
  state_after (admission_check operation) c = c /\
  forall c' : communicator_server and_gate,
    let run := on_ready allocation operation which num_values finalizer f
                 owns_lock in
    (exists e, result_of run c' = Thrown e) /\
    (forall e, f = ready_exception e -> result_of run c' = Thrown e) /\
    (f = ready_value -> owns_lock = true ->
     result_of run c' = Thrown on_ready_error) /\
    calls_of run c' = [] /\
    state_after run c' = c'.
Proof.
  cbn zeta. change (@id Operation (communicator_data_primary Operation))
    with nullptr.
  split; [reflexivity |]. split; [| split].
  - unfold result_of, state_after. rewrite admission_check_run.
    destruct c as [d g n k o ni da]; cbn.
    destruct (N.eqb_spec o nullptr) as [Ho | Ho]; cbn.
    + destruct (Z.eqb_spec k 0); cbn; [reflexivity |].
      split; [reflexivity | right; assumption].
    + split; [reflexivity | left; assumption].
  - unfold state_after; rewrite admission_check_run.
    destruct c as [d g n k o ni da]; cbn.
    destruct (N.eqb_spec o nullptr) as [Ho | Ho]; cbn.
    + subst o; destruct (k =? 0); reflexivity.
    + reflexivity.
  - intros c'. unfold result_of, calls_of, state_after.
    rewrite on_ready_run.
    destruct f as [| e]; cbn.
    + assert (Hrej : on_ready_rejects nullptr c' = true).
      { apply on_ready_rejects_true.
        destruct (N.eq_dec (current_operation_ c') nullptr); auto. }
      rewrite Hrej; cbn.
      split; [eexists; reflexivity |].
      split; [intros e H; discriminate H |].
      split; [intros _ ->; reflexivity | auto].
    + split; [eexists; reflexivity |].
      split; [intros e' H; inversion H; reflexivity |].
      split; [intros H; discriminate H | auto].
Qed.

End properties.

(** ** [handle_bool] *)

Lemma nth_update_word (v : vector_bool.storage) (k : nat) (g : Z -> Z) :
  (k < List.length v)%nat ->
  nth k (vector_bool.update_word v k g) 0 = g (nth k v 0).
Proof.
  revert k; induction v as [| w v IH]; intros [| k] Hk; cbn in *;
    try lia; try reflexivity.
  apply IH; lia.
Qed.

Lemma mask_of_power (i : nat) :
  vector_bool.mask_of i
  = 2 ^ Z.of_nat (Nat.modulo i vector_bool.word_bits).
Proof. unfold vector_bool.mask_of. apply Z.shiftl_1_l. Qed.

Lemma land_lor_mask (w m : Z) : Z.land (Z.lor w m) m = m.
Proof.
  apply Z.bits_inj'; intros n Hn.
  rewrite Z.land_spec, Z.lor_spec.
  destruct (Z.testbit w n), (Z.testbit m n); reflexivity.
Qed.

Lemma land_lnot_mask (w m : Z) : Z.land (Z.land w (Z.lnot m)) m = 0.
Proof.
  apply Z.bits_inj'; intros n Hn.
  rewrite !Z.land_spec, Z.lnot_spec, Z.bits_0 by assumption.
  destruct (Z.testbit w n), (Z.testbit m n); reflexivity.
Qed.

Lemma packed_write_read (v : vector_bool.storage) (i : nat) (b : bool) :
  (Nat.div i vector_bool.word_bits < List.length v)%nat ->
  vector_bool.operator_bool
    (vector_bool.subscript (vector_bool.assign v i b) i) = b.
Proof.
  intros Hi.
  unfold vector_bool.operator_bool, vector_bool.subscript,
    vector_bool.assign; cbn [vector_bool.word vector_bool.mask].
  rewrite nth_update_word by assumption.
  assert (Hm : vector_bool.mask_of i <> 0).
  { rewrite mask_of_power. apply Z.pow_nonzero; lia. }
  destruct b.
  - rewrite land_lor_mask. apply Z.eqb_neq in Hm; rewrite Hm; reflexivity.
  - rewrite land_lnot_mask; reflexivity.
Qed.

(** C9.  [handle_bool<ValueType>] hands its argument back unchanged for
    every [ValueType] other than [bool].  For [bool] its result is a
    [bool] of its own, the argument converted by [static_cast<bool>]: a
    plain [bool] comes back as it is, and a proxy into a packed
    [std::vector<bool>] comes back as the value last written to the
    element it refers to. *)
Theorem handle_bool_spec :
  (forall (ValueType : cpp_type) (Data : Type) (cast : ExplicitBool Data)
          (data : Data),
     match ValueType as V return handle_bool_result V Data -> Prop with
     | ty_bool => fun r => r = static_cast_bool data
     | _ => fun r => r = data
     end (handle_bool ValueType data)) /\
  (forall Data : Type, handle_bool_result ty_bool Data = bool) /\
  (forall b : bool, handle_bool ty_bool b = b) /\
  (forall (v : vector_bool.storage) (i : nat) (b : bool),
     (Nat.div i vector_bool.word_bits < List.length v)%nat ->
     handle_bool ty_bool
       (vector_bool.subscript (vector_bool.assign v i b) i) = b).
Proof.
  split; [| split; [| split]].
  - intros [] Data cast data; reflexivity.
  - reflexivity.
  - reflexivity.
  - intros v i b Hi. apply (packed_write_read v i b Hi).
Qed.

(* ================================================================= *)
(** * The properties on the sample collectives *)

(** The all-reduce of 10, 20 and 12 gives 42 at every site, whatever the
    order of the continuations and whoever holds the lock, and the
    completion callback then returns the communicator to its idle state
    in the next generation. *)
Example all_reduce_sum :
  let ready which owns_lock :=
    on_ready sample_allocation sample_operation which size_t_minus_one
      (Some sum_finalizer) ready_value owns_lock in
  let c1 := state_after (ready 2 false) all_arrived in
  let c2 := state_after (ready 0 false) c1 in
  let c3 := state_after (ready 1 true) c2 in
  let done := gate_set_callback counting_next_generation sample_operation 0
                success in
  data_ all_arrived = make_any ty_int [10; 20; 12] /\
  result_of (ready 2 false) all_arrived = Returned (Some 42) /\
  result_of (ready 0 false) c1 = Returned (Some 42) /\
  result_of (ready 1 true) c2 = Returned (Some 42) /\
  on_ready_count_ c3 = 3 /\
  result_of done c3 = Returned success /\
  state_after done c3 =
    mk_communicator_server (make_any ty_int [42; 20; 12]) 1 3 0 nullptr
      true false.
Proof. vm_compute. repeat split. Qed.

(** A finalizer that throws hands its exception to its site and is
    counted like any other. *)
Example throwing_finalizer_is_counted :
  let run := on_ready sample_allocation sample_operation 1 size_t_minus_one
               (Some throwing_finalizer) ready_value false in
  result_of run all_arrived = Thrown (foreign_exception 1) /\
  on_ready_count_ (state_after run all_arrived) = 1.
Proof. vm_compute. repeat split. Qed.

(** A second operation arriving in the same generation is turned away
    and the first stays in charge. *)
Example operation_mixing_is_rejected :
  let other : operation_id_type := 8192%N in
  let run := handle_data sample_allocation (T := ty_int) other 1 0 None
               size_t_minus_one in
  throws_invalid_status (result_of run first_arrival) = true /\
  state_after run first_arrival = first_arrival.
Proof. vm_compute. repeat split. Qed.

(** A continuation refused while the arriving site still holds the lock
    does not get as far as its [invalid_status]. *)
Example refusal_under_a_held_lock :
  let run owns_lock :=
    on_ready sample_allocation sample_operation 0 size_t_minus_one
      no_finalizer ready_value owns_lock in
  result_of (run false) sample_communicator = Thrown system_error /\
  result_of (run true) sample_communicator = Thrown on_ready_error.
Proof. vm_compute. repeat split. Qed.

Lemma is_size_t_0 : is_size_t 0.
Proof. unfold is_size_t, size_t_modulus; lia. Defined.

Lemma is_size_t_2 : is_size_t 2.
Proof. unfold is_size_t, size_t_modulus; lia. Defined.

(** C1.  The completion callback is meant to reset the communicator and
    advance the gate exactly when [on_ready_count_ == num_sites_].  After
    [untyped_generation], where the counts are equal, it does call
    [next_generation], but the reset is skipped: [on_ready_count_] is
    still 2 and [current_operation_] still set.  After a generation that
    made a typed access the same callback resets all four members, and
    with unequal counts it reports [invalid_status] in its error code,
    calls nothing and changes nothing. *)
Theorem gate_set_callback_skips_reset :
  let done := gate_set_callback counting_next_generation sample_operation 0
                success in
  (on_ready_count_ after_untyped_generation
     = num_sites_ after_untyped_generation /\
   calls_of done after_untyped_generation = [call_next_generation 0] /\
   result_of done after_untyped_generation = Returned success /\
   on_ready_count_ (state_after done after_untyped_generation) = 2 /\
   current_operation_ (state_after done after_untyped_generation)
     = sample_operation) /\
  (on_ready_count_ five_counted = num_sites_ five_counted /\
   calls_of done five_counted = [call_next_generation 0] /\
   result_of done five_counted = Returned success /\
   state_after done five_counted =
     mk_communicator_server (make_any ty_int [0; 0; 0; 0; 0]) 1 2 0 nullptr
       true false) /\
  (on_ready_count_ first_arrival <> num_sites_ first_arrival /\
   done first_arrival = (Returned invalid_status, first_arrival, [])).
Proof.
  vm_compute. repeat split; discriminate.
Qed.

(** Against C2 as first stated: an [on_ready] that fails its operation
    re-check, and one that fails the excessive-[on_ready] check, both
    leave [on_ready_count_] where it was. *)
Lemma on_ready_count_unchanged_on_rejection :
  (let run := on_ready sample_allocation sample_operation 0 size_t_minus_one
                no_finalizer ready_value true in
   result_of run sample_communicator = Thrown on_ready_error /\
   on_ready_count_ sample_communicator = 0 /\
   on_ready_count_ (state_after run sample_communicator) = 0 /\
   on_ready_count_ (state_after run sample_communicator)
     <> on_ready_count_ sample_communicator + 1) /\
  (let run := on_ready sample_allocation sample_operation 0 size_t_minus_one
                no_finalizer ready_value true in
   result_of run after_untyped_generation = Thrown on_ready_error /\
   on_ready_count_ after_untyped_generation = 2 /\
   on_ready_count_ (state_after run after_untyped_generation) = 2 /\
   on_ready_count_ (state_after run after_untyped_generation)
     <> on_ready_count_ after_untyped_generation + 1).
Proof. vm_compute. repeat split; discriminate. Qed.

Lemma on_ready_count_after_on_ready_witness :
  is_size_t (on_ready_count_ first_arrival) /\
  is_size_t (num_sites_ first_arrival) /\
  on_ready_count_
    (state_after
       (on_ready sample_allocation sample_operation 0 size_t_minus_one
          (Some size_finalizer) ready_value false) first_arrival)
  = on_ready_count_ first_arrival + 1.
Proof.
  split; [exact is_size_t_0 | split; [exact is_size_t_2 |]].
  apply (proj1 (on_ready_count_after_on_ready sample_allocation ty_int Z
                  sample_operation 0 size_t_minus_one (Some size_finalizer)
                  ready_value false first_arrival is_size_t_0 is_size_t_2)).
  - reflexivity.
  - discriminate.
  - reflexivity.
  - reflexivity.
Defined.

(** C3.  [invalidate_data] is meant to reset the communicator whenever a
    generation completes.  After [untyped_generation], a generation that
    made no typed access, it resets nothing: [on_ready_count_] is still 2
    and [current_operation_] still set.  After a generation that made a
    typed access it sets [needs_initialization_], clears
    [data_available_], zeroes [on_ready_count_], nulls
    [current_operation_] and keeps [data_]. *)
Theorem invalidate_data_without_typed_access :
  (needs_initialization_ after_untyped_generation = true /\
   state_after invalidate_data after_untyped_generation
     = after_untyped_generation /\
   on_ready_count_ (state_after invalidate_data after_untyped_generation)
     = 2 /\
   current_operation_
     (state_after invalidate_data after_untyped_generation)
     = sample_operation /\
   ~ (on_ready_count_
        (state_after invalidate_data after_untyped_generation) = 0 /\
      current_operation_
        (state_after invalidate_data after_untyped_generation) = nullptr)) /\
  (five_counted =
     mk_communicator_server (make_any ty_int [0; 0; 0; 0; 0]) 0 2 2
       sample_operation false false /\
   state_after invalidate_data five_counted =
     mk_communicator_server (make_any ty_int [0; 0; 0; 0; 0]) 0 2 0 nullptr
       true false).
Proof.
  split.
  - split; [reflexivity | split; [reflexivity | split; [reflexivity |]]].
    split; [reflexivity |].
    intros [H _]; vm_compute in H; discriminate H.
  - split; reflexivity.
Qed.

(** Against C5 as first stated.  A run that passes both checks with a
    finalizer given never calls it when the payload holds another element
    type; a run that a check would refuse raises the future's exception
    instead of [invalid_status]; and a run that passes both checks raises
    [invalid_status] when the finalizer throws one. *)
Lemma on_ready_claim_fails :
  (let run := on_ready sample_allocation sample_operation 1 size_t_minus_one
                (Some size_finalizer) ready_value true in
   current_operation_ first_arrival_of_bool = sample_operation /\
   on_ready_count_ first_arrival_of_bool = 0 /\
   num_sites_ first_arrival_of_bool = 2 /\
   result_of run first_arrival_of_bool = Thrown bad_any_cast /\
   calls_of run first_arrival_of_bool = []) /\
  (let run := on_ready sample_allocation sample_operation 0 size_t_minus_one
                no_finalizer (ready_exception (foreign_exception 7)) true in
   current_operation_ sample_communicator = nullptr /\
   result_of run sample_communicator = Thrown (foreign_exception 7) /\
   throws_invalid_status (result_of run sample_communicator) = false) /\
  (let run := on_ready sample_allocation sample_operation 1 size_t_minus_one
                (Some failing_finalizer) ready_value true in
   current_operation_ first_arrival = sample_operation /\
   on_ready_count_ first_arrival = 0 /\
   num_sites_ first_arrival = 2 /\
   throws_invalid_status (result_of run first_arrival) = true).
Proof. vm_compute. repeat split. Qed.

(** Against C6 as first stated: with no override and two sites, the
    finalizer of the second generation is handed the five-element vector
    kept from the first. *)
Lemma finalizer_sees_retained_length :
  let run := on_ready sample_allocation sample_operation 0 size_t_minus_one
               (Some size_finalizer) ready_value false in
  get_num_sites second_generation size_t_minus_one = 2 /\
  calls_of run second_generation
    = [call_finalizer ty_int [0; 0; 0; 0; 0] false 0] /\
  result_of run second_generation = Returned (Some 5) /\
  vector_size (T := ty_int) [0; 0; 0; 0; 0]
    <> get_num_sites second_generation size_t_minus_one.
Proof. vm_compute. repeat split; discriminate. Qed.

Lemma finalizer_vector_length_witness :
  current_operation_ first_arrival <> nullptr /\
  current_operation_ first_arrival = sample_operation /\
  on_ready_count_ first_arrival < num_sites_ first_arrival /\
  0 <= required_size first_arrival 3 /\
  needs_initialization_ first_arrival = true /\
  any_cast ty_int (data_ first_arrival) = None /\
  sample_allocation ty_int 3 = None /\
  calls_of
    (on_ready sample_allocation sample_operation 0 3 (Some size_finalizer)
       ready_value false) first_arrival
  = [call_finalizer ty_int [0; 0; 0] false 0].
Proof.
  assert (H1 : current_operation_ first_arrival <> nullptr) by discriminate.
  assert (H2 : current_operation_ first_arrival = sample_operation)
    by reflexivity.
  assert (H3 : on_ready_count_ first_arrival < num_sites_ first_arrival)
    by reflexivity.
  assert (H4 : 0 <= required_size first_arrival 3) by discriminate.
  assert (H5 : needs_initialization_ first_arrival = true) by reflexivity.
  assert (H6 : any_cast ty_int (data_ first_arrival) = None) by reflexivity.
  assert (H7 : sample_allocation ty_int 3 = None) by reflexivity.
  repeat (split; [assumption |]).
  destruct (proj1 (finalizer_vector_length sample_allocation ty_int Z
                     sample_operation 0 3 size_finalizer false first_arrival
                     H1 H2 H3 H4) H5) as [_ Hfresh].
  destruct (Hfresh (or_introl H6)) as [Hok _].
  exact (proj1 (Hok H7)).
Defined.

(** Against C7 as first stated: the stored value is not a [vector<int>],
    yet it is not replaced, because a vector of [2^62] elements cannot be
    constructed. *)
Lemma reinitialize_data_allocation_failure :
  let run := reinitialize_data sample_allocation ty_int (2 ^ 62) in
  needs_initialization_ sample_communicator = true /\
  any_cast ty_int (data_ sample_communicator) = None /\
  result_of run sample_communicator = Thrown length_error /\
  data_ (state_after run sample_communicator) = None.
Proof. repeat split. Qed.

Lemma reinitialize_data_first_access_witness :
  needs_initialization_ sample_communicator = true /\
  0 <= required_size sample_communicator 3 /\
  any_cast ty_int (data_ sample_communicator) = None /\
  sample_allocation ty_int 3 = None /\
  data_ (state_after (reinitialize_data sample_allocation ty_int 3)
           sample_communicator)
  = make_any ty_int [0; 0; 0].
Proof.
  assert (H1 : needs_initialization_ sample_communicator = true)
    by reflexivity.
  assert (H2 : 0 <= required_size sample_communicator 3) by discriminate.
  assert (H3 : any_cast ty_int (data_ sample_communicator) = None)
    by reflexivity.
  assert (H4 : sample_allocation ty_int 3 = None) by reflexivity.
  repeat (split; [assumption |]).
  destruct (reinitialize_data_first_access sample_allocation ty_int 3
              sample_communicator H1 H2) as [Hfresh _].
  destruct (Hfresh (or_introl H3)) as [Hok _].
  exact (proj1 (proj2 (Hok H4))).
Defined.

Lemma on_ready_count_invariant_witness :
  is_size_t 2 /\
  on_ready_count_in_range
    (run_events counting_next_generation sample_allocation
       (generation_of_five ++ next_arrival) (construct (0 : counting_gate) 2)).
Proof.
  split; [exact is_size_t_2 |].
  apply (proj1 (on_ready_count_invariant counting_next_generation
                  sample_allocation (0 : counting_gate) 2
                  (generation_of_five ++ next_arrival) is_size_t_2)).
Defined.

(** Against C10 as first stated: with another operation current the
    admission check for the null token leaves [current_operation_]
    non-null, and a continuation for the null token raises the exception
    the gate's future holds rather than [invalid_status]. *)
Lemma null_token_claim_fails :
  (throws_invalid_status (result_of (admission_check nullptr) first_arrival)
     = true /\
   current_operation_ (state_after (admission_check nullptr) first_arrival)
     = sample_operation /\
   sample_operation <> nullptr) /\
  (let run := on_ready sample_allocation nullptr 0 size_t_minus_one
                no_finalizer (ready_exception (foreign_exception 7)) true in
   result_of run sample_communicator = Thrown (foreign_exception 7) /\
   throws_invalid_status (result_of run sample_communicator) = false).
Proof. vm_compute. repeat split; discriminate. Qed.

(* ================================================================= *)
(** * Further properties of the member functions *)

Section more_properties.

Context {and_gate : Type}.
Variable next_generation :
  and_gate -> size_t -> error_code -> and_gate * error_code.
Variable allocation : cpp_type -> size_t -> option allocation_failure.

Implicit Types c : communicator_server and_gate.

(** ** Typed access *)

(** X1.  On the first typed access of a generation, if a vector of the
    required length ([num_sites_], or [num_values] when that is not [-1])
    can be constructed, [access_data<T>] cannot fail: whatever [data_]
    held, it returns a [vector<T>] at least that long, which [data_] now
    holds.  If a fresh vector is needed and cannot be constructed, the
    allocator's exception comes out, [data_] is as it was and
    [needs_initialization_] has already been cleared. *)
Theorem access_data_first_access_succeeds T num_values c :
  needs_initialization_ c = true ->
  0 <= required_size c num_values ->
  let n := required_size c num_values in
  let access := access_data allocation T num_values in
  (allocation T n = None ->
   exists v : vector T,
     result_of access c = Returned v /\
     data_ (state_after access c) = make_any T v /\
     n <= vector_size v /\
     calls_of access c = []) /\
  (forall a, allocation T n = Some a ->
   any_cast T (data_ c) = None \/
   (exists v, any_cast T (data_ c) = Some v /\ vector_size v < n) ->
   result_of access c = Thrown (allocation_exception a) /\
   data_ (state_after access c) = data_ c /\
   needs_initialization_ (state_after access c) = false /\
   calls_of access c = []).
Proof.
  intros Hinit Hsize n access; subst access.
  destruct (first_access_run allocation T num_values c Hinit)
    as [Hkeep Hnew]. fold n in Hkeep, Hnew.
  unfold result_of, state_after, calls_of. split.
  - intros Hal.
    destruct (any_cast T (data_ c)) as [v |] eqn:Hv.
    + destruct (Z.lt_ge_cases (vector_size v) n) as [Hlt | Hge].
      * destruct (Hnew (or_intror (ex_intro _ v (conj eq_refl Hlt))))
          as [Hok _].
        destruct (Hok Hal) as [_ ->]. cbn. eexists; repeat split.
        fold (vector_of_size T n).
        rewrite (vector_size_vector_of_size T n Hsize). lia.
      * destruct (Hkeep v eq_refl Hge) as [_ ->]. cbn.
        exists v; repeat split; auto.
        apply any_cast_Some_inv; exact Hv.
    + destruct (Hnew (or_introl eq_refl)) as [Hok _].
      destruct (Hok Hal) as [_ ->]. cbn. eexists; repeat split.
      fold (vector_of_size T n).
      rewrite (vector_size_vector_of_size T n Hsize). lia.
  - intros a Hal Hcond.
    destruct (Hnew Hcond) as [_ Hfail].
    destruct (Hfail a Hal) as [_ ->]. cbn. repeat split.
Qed.

(** X2.  Once a typed access has returned a vector, every further
    [access_data<T>] returns that same vector and changes nothing, whatever
    [num_values] it passes: the length is settled by the first access and
    a larger request later in the generation does not grow the vector. *)
Theorem access_data_again T num_values num_values' c (v : vector T) :
  result_of (access_data allocation T num_values) c = Returned v ->
  access_data allocation T num_values'
    (state_after (access_data allocation T num_values) c)
  = (Returned v, state_after (access_data allocation T num_values) c, []).
Proof.
  intros Hres.
  destruct (access_data_returns allocation T num_values c v Hres)
    as [Hinit Hdata].
  rewrite (access_data_initialized allocation T num_values' _ Hinit), Hdata.
  rewrite any_cast_make_any. reflexivity.
Qed.

(** X3.  After a typed access for element type [U] has returned, an
    access for any other element type [T] throws [bad_any_cast] and
    leaves the communicator as it is: one generation serves one element
    type. *)
Theorem access_data_other_type T U num_values num_values' c (v : vector U) :
  result_of (access_data allocation U num_values) c = Returned v ->
  U <> T ->
  access_data allocation T num_values'
    (state_after (access_data allocation U num_values) c)
  = (Thrown bad_any_cast,
     state_after (access_data allocation U num_values) c, []).
Proof.
  intros Hres Hne.
  destruct (access_data_returns allocation U num_values c v Hres)
    as [Hinit Hdata].
  rewrite (access_data_initialized allocation T num_values' _ Hinit), Hdata.
  rewrite any_cast_other_type by assumption. reflexivity.
Qed.

(** X4.  What a generation leaves in [data_] survives [invalidate_data].
    The next generation's first access for the same element type gets the
    very same vector back when it is at least as long as required
    ([num_sites_], or [num_values] when that is not [-1]); when it is
    shorter, or the access is for another element type, the access
    returns a fresh vector of exactly the required length, every element
    value-initialised, provided one can be constructed.
    [data_available_] is [false] after each. *)
Theorem data_retained_across_generations T U (v : vector T)
  (num_values : size_t) c :
  needs_initialization_ c = false ->
  data_ c = make_any T v ->
  0 <= required_size c num_values ->
  let c' := state_after invalidate_data c in
  let n := required_size c num_values in
  (n <= vector_size v ->
   result_of (access_data allocation T num_values) c' = Returned v) /\
  (vector_size v < n -> allocation T n = None ->
   result_of (access_data allocation T num_values) c'
   = Returned (repeat (value_init T) (Z.to_nat n))) /\
  (T <> U -> allocation U n = None ->
   result_of (access_data allocation U num_values) c'
   = Returned (repeat (value_init U) (Z.to_nat n))) /\
  data_available_ (state_after (access_data allocation T num_values) c')
    = false /\
  data_available_ (state_after (access_data allocation U num_values) c')
    = false.
Proof.
  intros Hinit Hdata Hsize c' n.
  assert (Hc' : c' = mk_communicator_server (data_ c) (gate_ c)
                       (num_sites_ c) 0 nullptr true false).
  { subst c'; unfold state_after; rewrite invalidate_data_run, Hinit.
    reflexivity. }
  assert (Hinit' : needs_initialization_ c' = true)
    by (rewrite Hc'; reflexivity).
  assert (Hd' : data_ c' = make_any T v) by (rewrite Hc'; exact Hdata).
  assert (Hn' : required_size c' num_values = n)
    by (rewrite Hc'; reflexivity).
  clearbody c'.
  pose proof (first_access_run allocation T num_values c' Hinit') as HT.
  pose proof (first_access_run allocation U num_values c' Hinit') as HU.
  cbn zeta in HT, HU. rewrite Hn', Hd' in HT, HU.
  rewrite any_cast_make_any in HT.
  destruct HT as [HTkeep HTnew], HU as [_ HUnew].
  unfold result_of, state_after.
  split; [| split; [| split; [| split]]].
  - intros Hle. destruct (HTkeep v eq_refl Hle) as [_ ->]. reflexivity.
  - intros Hlt Hal.
    destruct (HTnew (or_intror (ex_intro _ v (conj eq_refl Hlt))))
      as [Hok _].
    destruct (Hok Hal) as [_ ->]. reflexivity.
  - intros Hne Hal.
    destruct (HUnew (or_introl (any_cast_other_type U T v Hne))) as [Hok _].
    destruct (Hok Hal) as [_ ->]. reflexivity.
  - apply (access_data_shape allocation T num_values c'); exact Hinit'.
  - apply (access_data_shape allocation U num_values c'); exact Hinit'.
Qed.

(** X5.  What a step leaves in the vector is what the next typed access
    of the generation receives, whether the step returned or threw and
    whatever [num_values] the next access passes. *)
Theorem step_result_is_next_access T (step : Step T)
  (num_values num_values' which : size_t) c (data : vector T) :
  result_of (access_data allocation T num_values) c = Returned data ->
  let c' := state_after (invoke_step allocation step num_values which) c in
  calls_of (invoke_step allocation step num_values which) c
    = [call_step T data which] /\
  result_of (invoke_step allocation step num_values which) c
    = snd (step data which) /\
  access_data allocation T num_values' c'
    = (Returned (fst (step data which)), c', []).
Proof.
  intros Hres c'.
  destruct (access_data_returns allocation T num_values c data Hres)
    as [Hinit Hdata].
  subst c'. unfold calls_of, result_of at 1, state_after at 1 2.
  rewrite invoke_step_run. rewrite Hres. cbn [fst snd].
  repeat split.
  rewrite access_data_initialized by exact Hinit.
  cbn [data_ set_data]. rewrite any_cast_make_any. reflexivity.
Qed.

(** ** Arrivals and the end of a generation *)

(** X6.  An arrival that the admission check refuses is turned away
    before anything else happens: [handle_data] throws [invalid_status]
    from its admission check, the step is not called and no data member
    changes. *)
Theorem handle_data_rejected_arrival T (operation : operation_id_type)
  (which generation : size_t) (step : option (Step T))
  (num_values : size_t) c :
  (current_operation_ c = nullptr /\ on_ready_count_ c <> 0) \/
  (current_operation_ c <> nullptr /\ current_operation_ c <> operation) ->
  handle_data allocation operation which generation step num_values c
  = (Thrown (hpx_exception invalid_status "communicator::handle_data"),
     c, []).
Proof.
  intros Hrej. rewrite handle_data_run. unfold result_of.
  rewrite admission_check_run.
  destruct (N.eqb_spec (current_operation_ c) nullptr) as [Ho | Ho].
  - destruct Hrej as [[_ Hk] | [H _]]; [| contradiction].
    apply Z.eqb_neq in Hk; rewrite Hk. reflexivity.
  - destruct Hrej as [[H _] | [_ Hop]]; [contradiction |].
    apply N.eqb_neq in Hop; rewrite Hop. reflexivity.
Qed.

(** X7.  When the completion callback finds all continuations counted in
    a generation that made a typed access, it leaves the communicator
    idle (counter zero, no current operation, payload kept but marked for
    re-initialisation) and the next arrival is let in with any token, so
    consecutive generations may run different operations. *)
Theorem completed_generation_returns_to_idle
  (operation operation' : operation_id_type) (generation : size_t)
  (ec : error_code) c :
  on_ready_count_ c = num_sites_ c ->
  needs_initialization_ c = false ->
  let c' := state_after
              (gate_set_callback next_generation operation generation ec) c in
  on_ready_count_ c' = 0 /\
  current_operation_ c' = nullptr /\
  needs_initialization_ c' = true /\
  data_available_ c' = false /\
  data_ c' = data_ c /\
  num_sites_ c' = num_sites_ c /\
  result_of (admission_check operation') c' = Returned tt /\
  current_operation_ (state_after (admission_check operation') c')
    = operation'.
Proof.
  intros Hcount Hinit c'.
  assert (Hc' : c' =
    mk_communicator_server (data_ c)
      (fst (next_generation (gate_ c) generation ec)) (num_sites_ c) 0
      nullptr true false).
  { subst c'. unfold state_after at 1.
    rewrite (gate_set_callback_run next_generation).
    apply Z.eqb_eq in Hcount; rewrite Hcount. cbn [negb fst snd].
    unfold state_after. rewrite invalidate_data_run, Hinit. reflexivity. }
  rewrite Hc'. unfold result_of, state_after.
  rewrite admission_check_run. cbn. repeat split.
Qed.

(** X8.  When the completion callback finds all continuations counted in
    a generation that made no typed access, only the gate moves on: the
    counter and the current operation stay, and from then on every
    [on_ready], for whatever operation, is refused without changing
    anything.  The refusal is [invalid_status] for a continuation that
    took the lock itself and [std::system_error], from its [unlock], for
    one that found the lock held. *)
Theorem untyped_generation_blocks_the_next
  (operation : operation_id_type) (generation : size_t) (ec : error_code) c :
  on_ready_count_ c = num_sites_ c ->
  needs_initialization_ c = true ->
  let c' := state_after
              (gate_set_callback next_generation operation generation ec) c in
  c' = set_gate (fst (next_generation (gate_ c) generation ec)) c /\
  forall T R (operation' : operation_id_type) (which num_values : size_t)
         (finalizer : option (Finalizer T R)) (owns_lock : bool),
    on_ready allocation operation' which num_values finalizer ready_value
      owns_lock c'
    = (Thrown (if owns_lock then on_ready_error else system_error), c', []).
Proof.
  intros Hcount Hinit c'.
  assert (Hc' : c' =
    set_gate (fst (next_generation (gate_ c) generation ec)) c).
  { subst c'. unfold state_after at 1.
    rewrite (gate_set_callback_run next_generation).
    pose proof Hcount as Hb. apply Z.eqb_eq in Hb; rewrite Hb.
    cbn [negb fst snd].
    unfold state_after. rewrite invalidate_data_run, Hinit. reflexivity. }
  split; [exact Hc' |].
  intros T R operation' which num_values finalizer owns_lock.
  rewrite on_ready_run.
  assert (Hrej : on_ready_rejects operation' c' = true).
  { apply on_ready_rejects_true. right; right.
    rewrite Hc'; cbn. lia. }
  rewrite Hrej. reflexivity.
Qed.

(** ** What single transitions leave alone *)

Lemma invoke_step_shape T (step : Step T) (num_values which : size_t) c :
  let c' := state_after (invoke_step allocation step num_values which) c in
  same_protocol_state c c' /\
  needs_initialization_ c' = false /\
  (data_ c' = data_ c \/ exists v : vector T, data_ c' = make_any T v) /\
  (needs_initialization_ c = true -> data_available_ c' = false) /\
  (needs_initialization_ c = false ->
   data_available_ c' = data_available_ c).
Proof.
  cbn zeta. unfold state_after at 1 2 3 4 5 6. rewrite invoke_step_run.
  destruct (access_data_shape allocation T num_values c)
    as (_ & Hp & Hi & Hsame & Hda & Hd & _).
  destruct (result_of _ c) as [data | e]; cbn [fst snd].
  - repeat split; try apply Hp; cbn; auto; eauto.
    intros H; rewrite (Hsame H); reflexivity.
  - repeat split; try apply Hp; auto.
    intros H; rewrite (Hsame H); reflexivity.
Qed.

Lemma admission_check_shape (operation : operation_id_type) c :
  let c' := state_after (admission_check operation) c in
  c' = c \/
  (current_operation_ c = nullptr /\ on_ready_count_ c = 0 /\
   c' = set_current_operation operation c).
Proof.
  cbn zeta. unfold state_after; rewrite admission_check_run.
  destruct (N.eqb_spec (current_operation_ c) nullptr) as [Ho | Ho].
  - destruct (Z.eqb_spec (on_ready_count_ c) 0); cbn; auto.
  - destruct (current_operation_ c =? operation)%N; cbn; auto.
Qed.

Lemma on_ready_shape T R (operation : operation_id_type)
  (which num_values : size_t) (finalizer : option (Finalizer T R))
  (f : shared_future_void) (owns_lock : bool) c :
  let c' := state_after
              (on_ready allocation operation which num_values finalizer f
                 owns_lock) c in
  c' = c \/
  (current_operation_ c <> nullptr /\
   exists s, c' = set_on_ready_count (size_t_incr (on_ready_count_ c)) s /\
             same_protocol_state c s /\
             (s = c \/
              (needs_initialization_ s = false /\
               (data_ s = data_ c \/
                exists v : vector T, data_ s = make_any T v)))).
Proof.
  cbn zeta. unfold state_after at 1 2. rewrite on_ready_run.
  destruct f as [| e]; [| left; reflexivity].
  destruct (on_ready_rejects operation c) eqn:Hrej; [left; reflexivity |].
  apply on_ready_rejects_false in Hrej. destruct Hrej as (Hnull & _ & _).
  right; split; [assumption |].
  destruct finalizer as [fin |]; cbn [fst snd].
  - exists (state_after (invoke_finalizer allocation fin num_values which) c).
    destruct (invoke_finalizer_protocol allocation T R fin num_values which c)
      as (Hg & Hn & Hk & Ho).
    rewrite Hk. split; [reflexivity |]. split; [repeat split; auto |].
    right. unfold state_after at 1 2 3. rewrite invoke_finalizer_run.
    destruct (access_data_shape allocation T num_values c)
      as (_ & _ & Hi & _ & _ & Hd & _).
    destruct (result_of _ c); cbn [fst snd]; cbn; eauto.
  - exists c. repeat split; auto.
Qed.

Lemma gate_set_callback_shape (operation : operation_id_type)
  (generation : size_t) (ec : error_code) c :
  let c' := state_after
              (gate_set_callback next_generation operation generation ec) c in
  c' = c \/
  (on_ready_count_ c = num_sites_ c /\
   c' = set_gate (fst (next_generation (gate_ c) generation ec))
          (state_after invalidate_data c)).
Proof.
  cbn zeta. unfold state_after at 1 2.
  rewrite (gate_set_callback_run next_generation).
  destruct (Z.eqb_spec (on_ready_count_ c) (num_sites_ c)); cbn; auto.
Qed.

Lemma handle_data_shape T (operation : operation_id_type)
  (which generation : size_t) (step : option (Step T))
  (num_values : size_t) c :
  let c1 := state_after (admission_check operation) c in
  let c' :=
    state_after
      (handle_data allocation operation which generation step num_values) c in
  c' = c1 \/
  exists st : Step T,
    c' = state_after (invoke_step allocation st num_values which) c1.
Proof.
  cbn zeta. unfold state_after. rewrite handle_data_run.
  unfold result_of, state_after. rewrite admission_check_run.
  destruct (current_operation_ c =? nullptr)%N;
    [destruct (on_ready_count_ c =? 0) |
     destruct (current_operation_ c =? operation)%N];
    cbn [negb fst snd]; try (left; reflexivity);
    (destruct step as [st |];
     [right; exists st; reflexivity | left; reflexivity]).
Qed.

(** ** Invariants of the reachable states *)

Lemma consistent_after_typed_access c s :
  consistent c -> same_protocol_state c s ->
  needs_initialization_ s = false -> consistent s.
Proof.
  intros (Hda & Hk) (_ & _ & Hcount & Hop) Hinit. split.
  - rewrite Hinit; discriminate.
  - rewrite Hop, Hcount; assumption.
Qed.

Lemma invalidate_data_consistent c :
  consistent c -> consistent (state_after invalidate_data c).
Proof.
  intros Hc. unfold state_after; rewrite invalidate_data_run; cbn.
  destruct (needs_initialization_ c) eqn:E; [exact Hc |].
  split; cbn; auto.
Qed.

Lemma run_event_consistent (e : event) c :
  consistent c -> consistent (run_event next_generation allocation e c).
Proof.
  intros Hc.
  assert (Hadm : forall operation,
             consistent (state_after (admission_check operation) c)).
  { intros operation.
    destruct (admission_check_shape operation c) as [-> | (Ho & Hk & ->)];
      [exact Hc |].
    destruct Hc as (Hda & _). split; cbn; auto. }
  assert (Hstep : forall T (st : Step T) num_values which c1,
             consistent c1 ->
             consistent
               (state_after (invoke_step allocation st num_values which) c1)).
  { intros T st num_values which c1 Hc1.
    destruct (invoke_step_shape T st num_values which c1)
      as (Hp & Hi & _).
    apply (consistent_after_typed_access c1); auto. }
  destruct e; cbn [run_event].
  - destruct (handle_data_shape T operation which generation step
                num_values c) as [-> | [st ->]]; auto.
  - apply Hadm.
  - apply Hstep; exact Hc.
  - destruct (on_ready_shape T R operation which num_values
                finalizer f owns_lock c)
      as [-> | (Hnull & s & -> & Hp & Hs)]; [exact Hc |].
    assert (Hcs : consistent s).
    { destruct Hs as [-> | (Hi & _)]; [exact Hc |].
      apply (consistent_after_typed_access c); auto. }
    destruct Hcs as (Hda & _), Hp as (_ & _ & _ & Hop).
    split; cbn; auto.
    intros H; rewrite Hop in H; contradiction.
  - destruct (gate_set_callback_shape operation generation
                ec c) as [-> | (_ & ->)]; [exact Hc |].
    apply invalidate_data_consistent in Hc.
    destruct Hc as (Hda & Hk). split; cbn; auto.
  - apply invalidate_data_consistent; exact Hc.
Qed.

Lemma run_events_consistent (es : list event) c :
  consistent c -> consistent (run_events next_generation allocation es c).
Proof.
  revert c; induction es as [| e es IH]; intros c Hc; [exact Hc |].
  apply (IH (run_event next_generation allocation e c)).
  apply run_event_consistent; exact Hc.
Qed.

Lemma construct_consistent (gate : and_gate) (num_sites : size_t) :
  consistent (construct gate num_sites).
Proof. split; cbn; auto. Qed.

(** X9.  In every state a communicator reaches, by whatever sequence of
    transitions, with whatever steps and finalizers, whoever holds the
    lock and whether or not allocations succeed: while the payload awaits
    re-initialisation [data_available_] is [false], and while no
    operation is current [on_ready_count_] is zero. *)
Theorem reachable_states_are_consistent (gate : and_gate)
  (num_sites : size_t) (es : list event) :
  let c := run_events next_generation allocation es
             (construct gate num_sites) in
  (needs_initialization_ c = true -> data_available_ c = false) /\
  (current_operation_ c = nullptr -> on_ready_count_ c = 0).
Proof.
  exact (run_events_consistent es _ (construct_consistent gate num_sites)).
Qed.

(** X10.  In a reachable state the admission check fails for one reason
    only, a token that differs from the non-null current operation: its
    other error, continuations counted while no operation is current,
    cannot arise. *)
Theorem ready_before_start_is_unreachable (gate : and_gate)
  (num_sites : size_t) (es : list event) (operation : operation_id_type) :
  let c := run_events next_generation allocation es
             (construct gate num_sites) in
  (throws_invalid_status (result_of (admission_check operation) c) = true <->
   current_operation_ c <> nullptr /\ current_operation_ c <> operation) /\
  (current_operation_ c = nullptr ->
   result_of (admission_check operation) c = Returned tt).
Proof.
  cbn zeta.
  destruct (run_events_consistent es _ (construct_consistent gate num_sites))
    as (_ & Hk).
  unfold result_of; rewrite admission_check_run.
  destruct (N.eqb_spec (current_operation_
              (run_events next_generation allocation es
                 (construct gate num_sites))) nullptr) as [Ho | Ho].
  - rewrite (Hk Ho); cbn. split; [split |]; auto; try discriminate.
    intros [H _]; contradiction.
  - destruct (N.eqb_spec (current_operation_
                (run_events next_generation allocation es
                   (construct gate num_sites))) operation) as [Hop | Hop];
      cbn.
    + split; [split |]; try discriminate; try contradiction.
      intros [_ H]; contradiction.
    + split; [split |]; auto; contradiction.
Qed.

(** ** Sequences of transitions within a generation *)

Lemma on_ready_of_step (operation : operation_id_type) (e : event) c :
  on_ready_of operation e = true ->
  current_operation_ c = operation -> operation <> nullptr ->
  0 <= on_ready_count_ c <= num_sites_ c ->
  num_sites_ c < size_t_modulus ->
  let c' := run_event next_generation allocation e c in
  current_operation_ c' = operation /\
  num_sites_ c' = num_sites_ c /\
  on_ready_count_ c' = Z.min (on_ready_count_ c + 1) (num_sites_ c).
Proof.
  intros He Hop Hnull [H0 Hle] Hn.
  destruct e; try discriminate He. cbn in He.
  destruct f; try discriminate He. apply N.eqb_eq in He; subst operation0.
  cbn [run_event]. unfold state_after. rewrite on_ready_run.
  destruct (on_ready_rejects operation c) eqn:Hrej; cbn [fst snd].
  - apply on_ready_rejects_true in Hrej.
    destruct Hrej as [H | [H | H]]; try congruence.
    repeat split; auto. lia.
  - apply on_ready_rejects_false in Hrej. destruct Hrej as (_ & _ & Hlt).
    destruct finalizer as [fin |]; cbn [fst snd].
    + destruct (invoke_finalizer_protocol allocation T R fin num_values
                  which c) as (_ & Hn' & Hk' & Ho').
      cbn. rewrite Hk', Hn', Ho'.
      rewrite (size_t_incr_small _ _ H0 Hlt Hn). repeat split; auto. lia.
    + cbn. rewrite (size_t_incr_small _ _ H0 Hlt Hn).
      repeat split; auto. lia.
Qed.

Lemma on_ready_runs_count (operation : operation_id_type)
  (es : list event) c :
  forallb (on_ready_of operation) es = true ->
  current_operation_ c = operation ->
  operation <> nullptr ->
  0 <= on_ready_count_ c <= num_sites_ c ->
  num_sites_ c < size_t_modulus ->
  on_ready_count_ (run_events next_generation allocation es c)
  = Z.min (on_ready_count_ c + Z.of_nat (List.length es)) (num_sites_ c) /\
  current_operation_ (run_events next_generation allocation es c)
  = operation.
Proof.
  revert c; induction es as [| e es IH]; intros c Hes Hop Hnull Hk Hn.
  - cbn. split; [lia | assumption].
  - cbn [forallb] in Hes. apply andb_true_iff in Hes. destruct Hes as [He Hes].
    destruct (on_ready_of_step operation e c He Hop Hnull Hk Hn)
      as (Hop' & Hn' & Hk').
    change (run_events next_generation allocation (e :: es) c)
      with (run_events next_generation allocation es
              (run_event next_generation allocation e c)).
    destruct (IH (run_event next_generation allocation e c) Hes Hop')
      as [Hcount Hcur]; try assumption; try lia.
    split; [| exact Hcur].
    rewrite Hcount, Hk', Hn'. cbn [List.length]. lia.
Qed.

(** X11.  Within a generation the counter saturates: after any number of
    [on_ready] runs for the current operation, with whatever finalizers,
    returning or throwing, [on_ready_count_] has grown by that number but
    never beyond [num_sites_].  So at most [num_sites_] continuations are
    let through per generation and the finalizers of the others are never
    called. *)
Theorem on_ready_count_saturates (operation : operation_id_type)
  (es : list event) c :
  forallb (on_ready_of operation) es = true ->
  current_operation_ c = operation ->
  operation <> nullptr ->
  0 <= on_ready_count_ c <= num_sites_ c ->
  num_sites_ c < size_t_modulus ->
  on_ready_count_ (run_events next_generation allocation es c)
  = Z.min (on_ready_count_ c + Z.of_nat (List.length es)) (num_sites_ c) /\
  current_operation_ (run_events next_generation allocation es c)
  = operation.
Proof. apply on_ready_runs_count. Qed.

Lemma run_event_keeps_operation (e : event) c :
  ends_generation e = false ->
  current_operation_ c <> nullptr ->
  current_operation_ (run_event next_generation allocation e c)
  = current_operation_ c.
Proof.
  intros He Hnull.
  assert (Hadm : forall operation,
             state_after (admission_check operation) c = c).
  { intros operation.
    destruct (admission_check_shape operation c) as [H | (H & _)];
      [exact H | contradiction]. }
  destruct e; try discriminate He; cbn [run_event].
  - destruct (handle_data_shape T operation which generation step
                num_values c) as [-> | [st ->]]; rewrite Hadm;
      [reflexivity |].
    apply (invoke_step_protocol allocation T st num_values which c).
  - rewrite Hadm; reflexivity.
  - apply (invoke_step_protocol allocation T step num_values which c).
  - destruct (on_ready_shape T R operation which num_values
                finalizer f owns_lock c)
      as [-> | (_ & s & -> & Hp & _)]; [reflexivity |].
    cbn. apply Hp.
Qed.

(** X12.  Once an operation is current it stays current until the
    generation is ended: no sequence of [handle_data] calls and [on_ready]
    runs, with whatever tokens, steps and finalizers, changes a non-null
    [current_operation_].  Only [invalidate_data], called directly or by
    the completion callback, clears it. *)
Theorem current_operation_is_fixed_within_a_generation
  (es : list event) c :
  forallb (fun e => negb (ends_generation e)) es = true ->
  current_operation_ c <> nullptr ->
  current_operation_ (run_events next_generation allocation es c)
  = current_operation_ c.
Proof.
  revert c; induction es as [| e es IH]; intros c Hes Hnull; [reflexivity |].
  cbn [forallb] in Hes. apply andb_true_iff in Hes. destruct Hes as [He Hes].
  apply negb_true_iff in He.
  pose proof (run_event_keeps_operation e c He Hnull) as Hstep.
  change (run_events next_generation allocation (e :: es) c)
    with (run_events next_generation allocation es
            (run_event next_generation allocation e c)).
  rewrite (IH (run_event next_generation allocation e c) Hes);
    [exact Hstep |].
  rewrite Hstep; exact Hnull.
Qed.

Lemma run_event_keeps_data (e : event) c :
  data_ c <> None ->
  data_ (run_event next_generation allocation e c) <> None.
Proof.
  intros Hd.
  assert (Hany : forall s : communicator_server and_gate,
             (data_ s = data_ c \/
              exists (T : cpp_type) (v : vector T),
                data_ s = make_any T v) -> data_ s <> None).
  { intros s [-> | (T & v & ->)]; [assumption | discriminate]. }
  assert (Hadm : forall operation,
             data_ (state_after (admission_check operation) c) = data_ c).
  { intros operation.
    destruct (admission_check_shape operation c) as [-> | (_ & _ & ->)];
      reflexivity. }
  destruct e; cbn [run_event].
  - destruct (handle_data_shape T operation which generation step
                num_values c) as [-> | [st ->]].
    + rewrite Hadm; assumption.
    + destruct (invoke_step_shape T st num_values which
                  (state_after (admission_check operation) c))
        as (_ & _ & [H | [v H]] & _); rewrite H;
        [rewrite Hadm; assumption | discriminate].
  - rewrite Hadm; assumption.
  - destruct (invoke_step_shape T step num_values which c)
      as (_ & _ & [H | [v H]] & _); apply Hany; eauto.
  - destruct (on_ready_shape T R operation which num_values
                finalizer f owns_lock c)
      as [-> | (_ & s & -> & _ & [-> | (_ & Hs)])]; cbn; auto.
    destruct Hs as [H | [v H]]; apply Hany; eauto.
  - destruct (gate_set_callback_shape operation generation
                ec c) as [-> | (_ & ->)]; [assumption |].
    cbn. unfold state_after; rewrite invalidate_data_run; cbn.
    destruct (needs_initialization_ c); assumption.
  - unfold state_after; rewrite invalidate_data_run; cbn.
    destruct (needs_initialization_ c); assumption.
Qed.

(** X14.  The payload storage is never released: once [data_] holds a
    vector, it holds one after every sequence of transitions, the ones
    that end a generation included. *)
Theorem data_is_never_emptied (es : list event) c :
  data_ c <> None ->
  data_ (run_events next_generation allocation es c) <> None.
Proof.
  revert c; induction es as [| e es IH]; intros c Hd; [exact Hd |].
  apply (IH (run_event next_generation allocation e c)).
  apply run_event_keeps_data; exact Hd.
Qed.

(** X15.  The completion callback advances the gate exactly when enough
    continuations have run before it.  Starting a generation with the
    counter at zero, after [k] runs of [on_ready] for the current
    operation the callback calls [next_generation] if [k >= num_sites_],
    and reports [invalid_status] without calling it if [k < num_sites_]. *)
Theorem completion_needs_all_continuations (operation : operation_id_type)
  (es : list event) (generation : size_t) (ec : error_code) c :
  forallb (on_ready_of operation) es = true ->
  current_operation_ c = operation ->
  operation <> nullptr ->
  on_ready_count_ c = 0 ->
  0 <= num_sites_ c < size_t_modulus ->
  let c' := run_events next_generation allocation es c in
  let done := gate_set_callback next_generation operation generation ec in
  (num_sites_ c <= Z.of_nat (List.length es) ->
   calls_of done c' = [call_next_generation generation]) /\
  (Z.of_nat (List.length es) < num_sites_ c ->
   calls_of done c' = [] /\ result_of done c' = Returned invalid_status /\
   state_after done c' = c').
Proof.
  intros Hes Hop Hnull Hzero [H0 Hn] c' done.
  assert (Hn' : num_sites_ c' = num_sites_ c).
  { subst c'. apply (run_events_in_range next_generation allocation es c).
    unfold on_ready_count_in_range; lia. }
  destruct (on_ready_runs_count operation es c Hes Hop Hnull)
    as [Hcount _]; try lia.
  fold c' in Hcount. rewrite Hzero in Hcount.
  subst done. unfold calls_of, result_of, state_after.
  rewrite (gate_set_callback_run next_generation), Hn', Hcount.
  split; intros Hk.
  - replace (Z.min (0 + Z.of_nat (List.length es)) (num_sites_ c))
      with (num_sites_ c) by lia.
    rewrite Z.eqb_refl. reflexivity.
  - replace (Z.min (0 + Z.of_nat (List.length es)) (num_sites_ c))
      with (Z.of_nat (List.length es)) by lia.
    assert (Hne : (Z.of_nat (List.length es) =? num_sites_ c) = false)
      by (apply Z.eqb_neq; lia).
    rewrite Hne. repeat split.
Qed.

(** X16.  What one site's finalizer leaves in the vector and in
    [data_available_] is what the next site's finalizer is given, whether
    the first returned or threw: a finalizer can do the work once, raise
    the flag, and let the others read the result. *)
Theorem finalizer_result_is_seen_by_next T R R'
  (fin : Finalizer T R) (fin' : Finalizer T R')
  (operation : operation_id_type)
  (which which' num_values num_values' : size_t)
  (owns_lock owns_lock' : bool) c (data : vector T) :
  current_operation_ c <> nullptr ->
  current_operation_ c = operation ->
  0 <= on_ready_count_ c ->
  on_ready_count_ c + 1 < num_sites_ c ->
  num_sites_ c < size_t_modulus ->
  result_of (access_data allocation T num_values) c = Returned data ->
  let c1 := state_after (access_data allocation T num_values) c in
  let out := fin data (data_available_ c1) which in
  let c' := state_after
              (on_ready allocation operation which num_values (Some fin)
                 ready_value owns_lock) c in
  calls_of
    (on_ready allocation operation which' num_values' (Some fin')
       ready_value owns_lock') c'
  = [call_finalizer T (fst (fst out)) (snd (fst out)) which'].
Proof.
  intros Hnull Hop H0 Hlt Hn Hres c1 out c'.
  destruct (access_data_returns allocation T num_values c data Hres)
    as [Hinit Hdata].
  fold c1 in Hinit, Hdata.
  destruct (access_data_shape allocation T num_values c) as (_ & Hp & _).
  fold c1 in Hp. destruct Hp as (_ & Hn1 & Hk1 & Ho1).
  assert (Hrej : on_ready_rejects operation c = false).
  { apply on_ready_rejects_false. repeat split; auto. lia. }
  assert (Hc' : c' =
    set_on_ready_count (on_ready_count_ c + 1)
      (set_data_available (snd (fst out))
         (set_data (make_any T (fst (fst out))) c1))).
  { subst c'. unfold state_after at 1. rewrite on_ready_run, Hrej.
    cbn [fst snd]. unfold state_after at 1 2. rewrite invoke_finalizer_run.
    rewrite Hres. cbn [fst snd]. fold c1. fold out.
    cbn [on_ready_count_ set_data_available set_data].
    rewrite Hk1, (size_t_incr_small (on_ready_count_ c) (num_sites_ c))
      by lia.
    reflexivity. }
  clearbody c'.
  assert (Hrej' : on_ready_rejects operation c' = false).
  { apply on_ready_rejects_false. rewrite Hc'; cbn.
    rewrite Ho1, Hn1. repeat split; auto. }
  assert (Hinit' : needs_initialization_ c' = false)
    by (rewrite Hc'; exact Hinit).
  assert (Hd' : data_ c' = make_any T (fst (fst out)))
    by (rewrite Hc'; reflexivity).
  assert (Ha' : data_available_ c' = snd (fst out))
    by (rewrite Hc'; reflexivity).
  unfold calls_of at 1. rewrite on_ready_run, Hrej'. cbn [fst snd].
  unfold calls_of. rewrite invoke_finalizer_run.
  unfold result_of, state_after.
  rewrite (access_data_initialized allocation T num_values' c' Hinit').
  cbn [fst snd].
  rewrite Hd', any_cast_make_any. cbn [fst snd]. rewrite Ha'. reflexivity.
Qed.

End more_properties.

(* ================================================================= *)
(** * The further properties on the sample collectives *)

Lemma access_data_first_access_succeeds_witness :
  needs_initialization_ sample_communicator = true /\
  0 <= required_size sample_communicator 3 /\
  sample_allocation ty_bool 3 = None /\
  exists v : vector ty_bool,
    result_of (access_data sample_allocation ty_bool 3) sample_communicator
      = Returned v /\
    3 <= vector_size v.
Proof.
  assert (H1 : needs_initialization_ sample_communicator = true)
    by reflexivity.
  assert (H2 : 0 <= required_size sample_communicator 3) by discriminate.
  assert (H3 : sample_allocation ty_bool 3 = None) by reflexivity.
  repeat (split; [assumption |]).
  destruct (proj1 (access_data_first_access_succeeds sample_allocation
                     ty_bool 3 sample_communicator H1 H2) H3)
    as (v & Hres & _ & Hlen & _).
  exists v; split; assumption.
Defined.

Lemma access_data_again_witness :
  result_of (access_data sample_allocation ty_int size_t_minus_one)
    sample_communicator = Returned [0; 0] /\
  result_of (access_data sample_allocation ty_int 7)
    (state_after (access_data sample_allocation ty_int size_t_minus_one)
       sample_communicator)
    = Returned [0; 0].
Proof.
  split; [reflexivity |].
  unfold result_of at 1.
  rewrite (access_data_again sample_allocation ty_int size_t_minus_one 7
             sample_communicator [0; 0] eq_refl).
  reflexivity.
Defined.

Lemma access_data_other_type_witness :
  result_of (access_data sample_allocation ty_int size_t_minus_one)
    sample_communicator = Returned [0; 0] /\
  ty_int <> ty_bool /\
  result_of (access_data sample_allocation ty_bool size_t_minus_one)
    (state_after (access_data sample_allocation ty_int size_t_minus_one)
       sample_communicator)
    = Thrown bad_any_cast.
Proof.
  assert (Hne : ty_int <> ty_bool) by discriminate.
  split; [reflexivity | split; [exact Hne |]].
  unfold result_of at 1.
  rewrite (access_data_other_type sample_allocation ty_bool ty_int
             size_t_minus_one size_t_minus_one sample_communicator [0; 0]
             eq_refl Hne).
  reflexivity.
Defined.

Lemma data_retained_across_generations_witness :
  needs_initialization_ all_arrived = false /\
  data_ all_arrived = make_any ty_int [10; 20; 12] /\
  0 <= required_size all_arrived 2 /\
  0 <= required_size all_arrived 4 /\
  result_of (access_data sample_allocation ty_int 2)
    (state_after invalidate_data all_arrived) = Returned [10; 20; 12] /\
  result_of (access_data sample_allocation ty_int 4)
    (state_after invalidate_data all_arrived) = Returned [0; 0; 0; 0] /\
  result_of (access_data sample_allocation ty_bool 4)
    (state_after invalidate_data all_arrived)
    = Returned [false; false; false; false].
Proof.
  assert (H2 : 0 <= required_size all_arrived 2) by discriminate.
  assert (H4 : 0 <= required_size all_arrived 4) by discriminate.
  split; [reflexivity | split; [reflexivity |]].
  split; [exact H2 | split; [exact H4 |]].
  destruct (data_retained_across_generations sample_allocation ty_int ty_bool
              [10; 20; 12] 2 all_arrived eq_refl eq_refl H2)
    as (Hkeep & _).
  destruct (data_retained_across_generations sample_allocation ty_int ty_bool
              [10; 20; 12] 4 all_arrived eq_refl eq_refl H4)
    as (_ & Hshort & Hother & _).
  split; [| split].
  - apply Hkeep. discriminate.
  - apply Hshort; reflexivity.
  - apply Hother; [discriminate | reflexivity].
Defined.

Lemma step_result_is_next_access_witness :
  result_of (access_data sample_allocation ty_int size_t_minus_one)
    sample_communicator = Returned [0; 0] /\
  result_of (access_data sample_allocation ty_int 9)
    (state_after
       (invoke_step sample_allocation (store_at 5) size_t_minus_one 1)
       sample_communicator)
  = Returned [0; 5].
Proof.
  split; [reflexivity |].
  destruct (step_result_is_next_access sample_allocation ty_int (store_at 5)
              size_t_minus_one 9 1 sample_communicator [0; 0] eq_refl)
    as (_ & _ & Hnext).
  unfold result_of at 1. rewrite Hnext. reflexivity.
Defined.

Lemma handle_data_rejected_arrival_witness :
  ((current_operation_ first_arrival = nullptr /\
    on_ready_count_ first_arrival <> 0) \/
   (current_operation_ first_arrival <> nullptr /\
    current_operation_ first_arrival <> 8192%N)) /\
  handle_data sample_allocation 8192%N 1 0 (Some (store_at 5))
    size_t_minus_one first_arrival
  = (Thrown (hpx_exception invalid_status "communicator::handle_data"),
     first_arrival, []).
Proof.
  assert (H : (current_operation_ first_arrival = nullptr /\
               on_ready_count_ first_arrival <> 0) \/
              (current_operation_ first_arrival <> nullptr /\
               current_operation_ first_arrival <> 8192%N))
    by (right; split; discriminate).
  split; [exact H |].
  apply (handle_data_rejected_arrival sample_allocation ty_int 8192%N 1 0
           (Some (store_at 5)) size_t_minus_one first_arrival H).
Defined.

Lemma completed_generation_returns_to_idle_witness :
  on_ready_count_ five_counted = num_sites_ five_counted /\
  needs_initialization_ five_counted = false /\
  current_operation_
    (state_after (admission_check 8192%N)
       (state_after
          (gate_set_callback counting_next_generation sample_operation 0
             success) five_counted))
  = 8192%N.
Proof.
  split; [reflexivity | split; [reflexivity |]].
  apply (completed_generation_returns_to_idle counting_next_generation
           sample_operation 8192%N 0 success five_counted eq_refl eq_refl).
Defined.

Lemma untyped_generation_blocks_the_next_witness :
  on_ready_count_ after_untyped_generation
    = num_sites_ after_untyped_generation /\
  needs_initialization_ after_untyped_generation = true /\
  result_of
    (on_ready sample_allocation sample_operation 0 size_t_minus_one
       (Some size_finalizer) ready_value false)
    (state_after
       (gate_set_callback counting_next_generation sample_operation 0
          success) after_untyped_generation)
  = Thrown system_error.
Proof.
  split; [reflexivity | split; [reflexivity |]].
  destruct (untyped_generation_blocks_the_next counting_next_generation
              sample_allocation sample_operation 0 success
              after_untyped_generation eq_refl eq_refl) as [_ Hblocked].
  unfold result_of.
  rewrite (Hblocked ty_int Z sample_operation 0 size_t_minus_one
             (Some size_finalizer) false).
  reflexivity.
Defined.

Lemma on_ready_count_saturates_witness :
  forallb (on_ready_of sample_operation) three_continuations = true /\
  current_operation_ first_arrival = sample_operation /\
  sample_operation <> nullptr /\
  0 <= on_ready_count_ first_arrival <= num_sites_ first_arrival /\
  num_sites_ first_arrival < size_t_modulus /\
  on_ready_count_
    (run_events counting_next_generation sample_allocation
       three_continuations first_arrival)
  = Z.min (0 + 3) 2.
Proof.
  assert (H1 : forallb (on_ready_of sample_operation) three_continuations
               = true) by reflexivity.
  assert (H2 : current_operation_ first_arrival = sample_operation)
    by reflexivity.
  assert (H3 : sample_operation <> nullptr) by discriminate.
  assert (H4 : 0 <= on_ready_count_ first_arrival
               <= num_sites_ first_arrival)
    by (split; discriminate).
  assert (H5 : num_sites_ first_arrival < size_t_modulus) by reflexivity.
  repeat (split; [assumption |]).
  apply (proj1 (on_ready_count_saturates counting_next_generation
                  sample_allocation sample_operation three_continuations
                  first_arrival H1 H2 H3 H4 H5)).
Defined.

Lemma current_operation_is_fixed_within_a_generation_witness :
  forallb (fun e => negb (ends_generation e)) mixed_arrivals = true /\
  current_operation_ first_arrival <> nullptr /\
  current_operation_
    (run_events counting_next_generation sample_allocation mixed_arrivals
       first_arrival)
  = sample_operation.
Proof.
  assert (H1 : forallb (fun e => negb (ends_generation e)) mixed_arrivals
               = true) by reflexivity.
  assert (H2 : current_operation_ first_arrival <> nullptr) by discriminate.
  split; [exact H1 | split; [exact H2 |]].
  apply (current_operation_is_fixed_within_a_generation
           counting_next_generation sample_allocation mixed_arrivals
           first_arrival H1 H2).
Defined.

Lemma data_is_never_emptied_witness :
  data_ all_arrived <> None /\
  data_
    (run_events counting_next_generation sample_allocation
       (three_continuations ++ [ev_invalidate_data]) all_arrived) <> None.
Proof.
  assert (H1 : data_ all_arrived <> None) by discriminate.
  split; [exact H1 |].
  apply (data_is_never_emptied counting_next_generation sample_allocation
           (three_continuations ++ [ev_invalidate_data]) all_arrived H1).
Defined.

Lemma completion_needs_all_continuations_witness :
  forallb (on_ready_of sample_operation) three_continuations = true /\
  current_operation_ first_arrival = sample_operation /\
  sample_operation <> nullptr /\
  on_ready_count_ first_arrival = 0 /\
  0 <= num_sites_ first_arrival < size_t_modulus /\
  calls_of
    (gate_set_callback counting_next_generation sample_operation 0 success)
    (run_events counting_next_generation sample_allocation
       three_continuations first_arrival)
  = [call_next_generation 0].
Proof.
  assert (H1 : forallb (on_ready_of sample_operation) three_continuations
               = true) by reflexivity.
  assert (H2 : current_operation_ first_arrival = sample_operation)
    by reflexivity.
  assert (H3 : sample_operation <> nullptr) by discriminate.
  assert (H4 : on_ready_count_ first_arrival = 0) by reflexivity.
  assert (H5 : 0 <= num_sites_ first_arrival < size_t_modulus)
    by (split; [discriminate | reflexivity]).
  repeat (split; [assumption |]).
  apply (proj1 (completion_needs_all_continuations counting_next_generation
                  sample_allocation sample_operation three_continuations 0
                  success first_arrival H1 H2 H3 H4 H5)).
  discriminate.
Defined.

Lemma finalizer_result_is_seen_by_next_witness :
  current_operation_ all_arrived <> nullptr /\
  current_operation_ all_arrived = sample_operation /\
  0 <= on_ready_count_ all_arrived /\
  on_ready_count_ all_arrived + 1 < num_sites_ all_arrived /\
  num_sites_ all_arrived < size_t_modulus /\
  result_of (access_data sample_allocation ty_int size_t_minus_one)
    all_arrived = Returned [10; 20; 12] /\
  calls_of
    (on_ready sample_allocation sample_operation 0 size_t_minus_one
       (Some sum_finalizer) ready_value false)
    (state_after
       (on_ready sample_allocation sample_operation 2 size_t_minus_one
          (Some sum_finalizer) ready_value false) all_arrived)
  = [call_finalizer ty_int [42; 20; 12] true 0].
Proof.
  assert (H1 : current_operation_ all_arrived <> nullptr) by discriminate.
  assert (H2 : current_operation_ all_arrived = sample_operation)
    by reflexivity.
  assert (H3 : 0 <= on_ready_count_ all_arrived) by discriminate.
  assert (H4 : on_ready_count_ all_arrived + 1 < num_sites_ all_arrived)
    by reflexivity.
  assert (H5 : num_sites_ all_arrived < size_t_modulus) by reflexivity.
  assert (H6 : result_of (access_data sample_allocation ty_int
                            size_t_minus_one) all_arrived
               = Returned [10; 20; 12]) by reflexivity.
  repeat (split; [assumption |]).
  apply (finalizer_result_is_seen_by_next sample_allocation ty_int Z Z
           sum_finalizer sum_finalizer sample_operation 2 0 size_t_minus_one
           size_t_minus_one false false all_arrived [10; 20; 12]
           H1 H2 H3 H4 H5 H6).
Defined.
